(** * Research agent front end: API client, status polling, batch and live sessions

    A shallow embedding of the TypeScript client of the research agent:
    - [lib/types.ts]: the wire types ([JobStatus], [LiveResearchSession], ...);
    - [lib/api.ts]: [handleApiResponse] and the endpoint wrappers;
    - [components/ProgressTrackng.tsx]: the research-quality percentage;
    - [components/StatusDisplay.tsx]: the job status polling effect and the
      result display;
    - [app/research/[jobId]/page.tsx]: the job page that mounts the status
      card;
    - [components/BatchLiveResearch.tsx]: batch polling and the live session.

    JavaScript values are an inductive type, strings the bytes of their
    UTF-8 encoding, doubles their exact rational value with the products
    and quotients rounded to the nearest double, promises their settled
    outcome, and each React component a transition system whose events are
    what the browser delivers to it one at a time: a timer firing, a
    promise settling, a WebSocket frame, a click. *)

From stdpp Require Import base strings list gmap pretty.
From Stdlib Require Import ZArith QArith Qround Qpower Qabs Lqa.
From Stdlib Require PrimFloat FloatOps SpecFloat Uint63.

Open Scope string_scope.
#[local] Set Warnings "-register-all".

(** ** JavaScript values *)

Module Js.

(** A JavaScript string is kept as the bytes of its UTF-8 encoding. *)

(** A number, as far as the client looks at it: whether it is a zero, and
    of which sign ([ToBoolean] and [Object.is]), and how [String] prints
    it.  [JSON.parse] yields no [NaN]. *)
Inductive zero_kind : Type := PlusZero | MinusZero | NonZero.

Record number : Type := {
  kind : zero_kind;
  digits : string
}.

Definition number_of_nat (n : nat) : number :=
  {| kind := match n with O => PlusZero | S _ => NonZero end; digits := pretty n |}.

(** What [JSON.parse] produces, together with [undefined]. *)
Inductive value : Type :=
  | VUndefined
  | VNull
  | VBool (b : bool)
  | VNum (n : number)
  | VStr (s : string)
  | VArr (items : list value)
  | VObj (fields : list (string * value)).

(** [ToBoolean]. *)
Definition truthy (v : value) : bool :=
  match v with
  | VUndefined | VNull => false
  | VBool b => b
  | VNum n => match kind n with NonZero => true | PlusZero | MinusZero => false end
  | VStr s => negb (String.eqb s "")
  | VArr _ | VObj _ => true
  end.

(** [a || b]. *)
Definition or_else (a b : value) : value := if truthy a then a else b.

(** Own property of an object literal, by key. *)
Fixpoint field (key : string) (fields : list (string * value)) : value :=
  match fields with
  | [] => VUndefined
  | (k, v) :: rest => if String.eqb k key then v else field key rest
  end.

(** Whether an object has an own property of that key. *)
Definition has_key (key : string) (fields : list (string * value)) : bool :=
  existsb (fun kv => String.eqb (fst kv) key) fields.

(** The six payload bits of a continuation byte. *)
Definition payload (c : Ascii.ascii) : N := N.land (Ascii.N_of_ascii c) 63.

(** The UTF-16 code units of a string, which [length] and [slice] count,
    decoded from its (well-formed) UTF-8 bytes: one unit for a sequence of
    one, two or three bytes, a surrogate pair for a sequence of four. *)
Fixpoint utf16 (s : string) : list N :=
  match s with
  | EmptyString => []
  | String c1 r1 =>
      let b1 := Ascii.N_of_ascii c1 in
      if (b1 <? 128)%N then b1 :: utf16 r1
      else
        match r1 with
        | EmptyString => [65533%N]
        | String c2 r2 =>
            if (b1 <? 224)%N then ((b1 - 192) * 64 + payload c2)%N :: utf16 r2
            else
              match r2 with
              | EmptyString => [65533%N]
              | String c3 r3 =>
                  if (b1 <? 240)%N then
                    ((b1 - 224) * 4096 + payload c2 * 64 + payload c3)%N :: utf16 r3
                  else
                    match r3 with
                    | EmptyString => [65533%N]
                    | String c4 r4 =>
                        let cp := ((b1 - 240) * 262144 + payload c2 * 4096
                                   + payload c3 * 64 + payload c4 - 65536)%N in
                        (55296 + cp / 1024)%N :: (56320 + cp mod 1024)%N :: utf16 r4
                    end
              end
        end
  end.

(** [s.length]. *)
Definition utf16_length (s : string) : nat := length (utf16 s).

(** The string of one code unit, in the same encoding (a surrogate on its
    own takes three bytes, like the other code units from U+0800 on). *)
Definition unit_string (u : N) : string :=
  String.string_of_list_ascii
    (if (u <? 128)%N then [Ascii.ascii_of_N u]
     else if (u <? 2048)%N then
       [Ascii.ascii_of_N (192 + u / 64); Ascii.ascii_of_N (128 + u mod 64)]
     else
       [Ascii.ascii_of_N (224 + u / 4096); Ascii.ascii_of_N (128 + (u / 64) mod 64);
        Ascii.ascii_of_N (128 + u mod 64)]).

(** [v.key].  Reading a property of [null] or [undefined] throws a
    [TypeError] ([None]); a primitive or an array has none of the keys the
    client reads apart from [length]. *)
Definition get (v : value) (key : string) : option value :=
  match v with
  | VUndefined | VNull => None
  | VObj fields => Some (field key fields)
  | VStr s =>
      Some (if String.eqb key "length" then VNum (number_of_nat (utf16_length s))
            else VUndefined)
  | VArr items =>
      Some (if String.eqb key "length" then VNum (number_of_nat (length items))
            else VUndefined)
  | VBool _ | VNum _ => Some VUndefined
  end.

(** [String(v)], the conversion the [Error] constructor applies to its
    message.  An array prints its elements joined by commas, [null] and
    [undefined] among them as nothing; an object prints as
    ["[object Object]"], unless it has an own [toString] property: that
    shadows the method, no JSON value can be called, and the conversion
    throws a [TypeError] ([None]). *)
Fixpoint to_string (v : value) : option string :=
  match v with
  | VUndefined => Some "undefined"
  | VNull => Some "null"
  | VBool b => Some (if b then "true" else "false")
  | VNum n => Some (digits n)
  | VStr s => Some s
  | VObj fields => if has_key "toString" fields then None else Some "[object Object]"
  | VArr items =>
      (fix join (l : list value) : option string :=
         match l with
         | [] => Some ""
         | x :: rest =>
             match (match x with
                    | VUndefined | VNull => Some ""
                    | _ => to_string x
                    end), join rest with
             | Some a, Some b =>
                 Some (match rest with [] => a | _ :: _ => a +:+ "," +:+ b end)
             | _, _ => None
             end
         end) items
  end.

(** [Object.is(a, b)] for a value [b] fresh from [JSON.parse] or a literal:
    primitives by value, an object or an array never (it is a new one). *)
Definition same_value (a b : value) : bool :=
  match a, b with
  | VUndefined, VUndefined | VNull, VNull => true
  | VBool x, VBool y => Bool.eqb x y
  | VNum x, VNum y =>
      String.eqb (digits x) (digits y) &&
      match kind x, kind y with
      | PlusZero, PlusZero | MinusZero, MinusZero | NonZero, NonZero => true
      | _, _ => false
      end
  | VStr x, VStr y => String.eqb x y
  | _, _ => false
  end.

End Js.

Import Js.

(** ** [lib/types.ts] *)

Module Types.

(** [type JobStatus = "queued" | "in_progress" | "completed" | "failed"]. *)
Inductive JobStatus : Type := queued | in_progress | completed | failed.

Definition JobStatus_wire (s : JobStatus) : string :=
  match s with
  | queued => "queued"
  | in_progress => "in_progress"
  | completed => "completed"
  | failed => "failed"
  end.

Definition JobStatus_eqb (a b : JobStatus) : bool :=
  match a, b with
  | queued, queued | in_progress, in_progress
  | completed, completed | failed, failed => true
  | _, _ => false
  end.

(** [interface JobStatusResponse]; of the optional members the polling
    effect reads [progress] and [error_message]. *)
Record JobStatusResponse : Type := {
  jsr_job_id : string;
  jsr_status : JobStatus;
  jsr_progress : option Q;
  jsr_error_message : option string
}.

(** [interface JobSubmitResponse]. *)
Record JobSubmitResponse : Type := {
  sub_job_id : string;
  sub_status : JobStatus
}.

(** The [status] member of [interface LiveResearchSession]:
    ["active" | "ended" | "error"]. *)
Inductive SessionStatus : Type := active | ended | error.

Definition SessionStatus_wire (s : SessionStatus) : string :=
  match s with
  | active => "active"
  | ended => "ended"
  | error => "error"
  end.

(** [interface LiveResearchSession]. *)
Record LiveResearchSession : Type := {
  session_id : string;
  topic : string;
  status : SessionStatus;
  started_at : string;
  modalities : list string;
  participants : option nat
}.

(** The return type of [cancelJob] and [deleteResearchJob]:
    [{ success: boolean; message: string }]. *)
Record SuccessMessage : Type := {
  success : bool;
  message : string
}.

Definition SuccessMessage_value (r : SuccessMessage) : value :=
  VObj [("success", VBool (success r)); ("message", VStr (message r))].

(** Reading a value at the type [{ success: boolean; message: string }]. *)
Definition as_SuccessMessage (v : value) : option SuccessMessage :=
  match get v "success", get v "message" with
  | Some (VBool b), Some (VStr m) => Some {| success := b; message := m |}
  | _, _ => None
  end.

End Types.

(** ** [lib/api.ts] *)

Module Api.

(** A [Response] as [handleApiResponse] sees it: the status line, and what
    [response.json()] settles to ([None]: the body is not JSON and the promise
    rejects with a [SyntaxError]). *)
Record Response : Type := {
  status : N;
  statusText : string;
  json : option value
}.

(** [response.ok]: the status is in the range 200-299. *)
Definition ok (r : Response) : bool := (200 <=? status r)%N && (status r <=? 299)%N.

(** [class ApiError].  [message] is what the [Error] constructor keeps of
    its argument, the string [String(message)]; [status], [code] and
    [details] are stored as they are passed. *)
Record ApiError : Type := {
  message : string;
  err_status : N;
  code : value;
  details : value
}.

Inductive exn : Type :=
  | EApiError (e : ApiError)
  | ESyntaxError
  | ETypeError
  | ENetwork.

(** A settled promise. *)
Inductive outcome (T : Type) : Type :=
  | Resolved (v : T)
  | Rejected (e : exn).
Arguments Resolved {T} v.
Arguments Rejected {T} e.

(** The three locals of the error branch. *)
Record errvars : Type := {
  errorMessage : value;
  errorCode : value;
  errorDetails : value
}.

(** The body of the [try] block, from the parsed [errorBody]; an access that
    throws leaves the block with the assignments made so far. *)
Definition read_error_body (errorBody : value) (vars : errvars) : errvars :=
  match get errorBody "detail" with
  | None => vars
  | Some detail =>
    let msg :=
      if truthy detail then Some detail
      else match get errorBody "message" with
           | None => None
           | Some m => Some (or_else m (errorMessage vars))
           end in
    match msg with
    | None => vars
    | Some msg =>
      let vars1 := {| errorMessage := msg; errorCode := errorCode vars;
                      errorDetails := errorDetails vars |} in
      match get errorBody "code" with
      | None => vars1
      | Some c =>
        let vars2 := {| errorMessage := msg; errorCode := or_else c (errorCode vars1);
                        errorDetails := errorDetails vars1 |} in
        match get errorBody "details" with
        | None => vars2
        | Some d => {| errorMessage := msg; errorCode := errorCode vars2;
                       errorDetails := d |}
        end
      end
    end
  end.

Definition default_message (r : Response) : string :=
  "API Error: " +:+ pretty (status r) +:+ " " +:+ statusText r.

(** The three locals when the [throw] is reached. *)
Definition error_vars (r : Response) : errvars :=
  let vars := {| errorMessage := VStr (default_message r);
                 errorCode := VStr "UNKNOWN_ERROR";
                 errorDetails := VUndefined |} in
  match json r with
  | Some errorBody => read_error_body errorBody vars
  | None => vars
  end.

(** [new ApiError(errorMessage, response.status, errorCode, errorDetails)]:
    [super(message)] converts the message to a string, and throws where that
    conversion does. *)
Definition new_ApiError (message : value) (status : N) (code details : value) : exn :=
  match to_string message with
  | Some m => EApiError {| message := m; err_status := status;
                           code := code; details := details |}
  | None => ETypeError
  end.

Definition handleApiResponse (r : Response) : outcome value :=
  if negb (ok r) then
    let vars := error_vars r in
    Rejected (new_ApiError (errorMessage vars) (status r) (errorCode vars)
                           (errorDetails vars))
  else
    match json r with
    | Some v => Resolved v
    | None => Rejected ESyntaxError
    end.

Inductive method : Type := GET | POST | PATCH | DELETE.

Record Request : Type := {
  url : string;
  meth : method
}.

Section Endpoints.

(** [process.env.NEXT_PUBLIC_API_URL || 'http://localhost:8000']. *)
Variable API_BASE_URL : string.

(** [fetch]: the network answers a request with a response or fails. *)
Variable fetch : Request -> outcome Response.

Definition call (req : Request) : outcome value :=
  match fetch req with
  | Resolved r => handleApiResponse r
  | Rejected e => Rejected e
  end.

Definition cancelJob (jobId : string) : outcome value :=
  call {| url := API_BASE_URL +:+ "/research/" +:+ jobId +:+ "/cancel"; meth := POST |}.

End Endpoints.

End Api.

(** ** JavaScript numbers *)

Module Double.

(** A double that is finite, by its exact value, or [NaN] / an infinity. *)
Inductive number : Type :=
  | Finite (q : Q)
  | NotFinite.

(** [2^e]. *)
Definition pow2 (e : Z) : Q := (2 ^ e)%Q.

(** The binade of a positive rational: the [e] with [2^e <= q < 2^(e+1)]. *)
Definition ilog2 (q : Q) : Z :=
  let e := (Z.log2 (Qnum q) - Z.log2 (Z.pos (Qden q)))%Z in
  if Qle_bool (pow2 e) q then e else (e - 1)%Z.

(** Rounding to the nearest integer, a tie to the even one. *)
Definition nearest_even (x : Q) : Z :=
  let f := Qfloor x in
  match (x - inject_Z f ?= 1 # 2)%Q with
  | Lt => f
  | Gt => (f + 1)%Z
  | Eq => if Z.even f then f else (f + 1)%Z
  end.

(** A positive rational rounded to the nearest multiple of the spacing of
    the doubles of its binade: 53 significant bits, and [2^-1074] below
    [2^-1022]. *)
Definition round_pos (q : Q) : Q :=
  let ulp := pow2 (Z.max (ilog2 q) (-1022) - 52) in
  (inject_Z (nearest_even (q / ulp)) * ulp)%Q.

(** Rounding to the nearest double, ties to even (the IEEE 754 default,
    which JavaScript uses), before overflow. *)
Definition round (q : Q) : Q :=
  match (q ?= 0)%Q with
  | Eq => 0%Q
  | Gt => round_pos q
  | Lt => (- round_pos (- q))%Q
  end.

(** The result of an operation whose exact value is [q]: the nearest
    double, an infinity from [2^1024] on. *)
Definition double (q : Q) : number :=
  let r := round q in
  if Qle_bool (pow2 1024) (Qabs r) then NotFinite else Finite r.

(** [a / b]: dividing by zero gives [NaN] or an infinity, never an
    exception. *)
Definition div (a b : number) : number :=
  match a, b with
  | Finite x, Finite y => if Qeq_bool y 0 then NotFinite else double (x / y)
  | _, _ => NotFinite
  end.

(** [a * b]. *)
Definition mul (a b : number) : number :=
  match a, b with
  | Finite x, Finite y => double (x * y)
  | _, _ => NotFinite
  end.

(** An array length: an integer below [2^32], a double as it is. *)
Definition of_nat (n : nat) : number := Finite (inject_Z (Z.of_nat n)).

(** The same numbers in the kernel's binary64 arithmetic, to compare
    with: the exact value of a float, and a count as a float. *)
Definition exact (f : PrimFloat.float) : option Q :=
  match FloatOps.Prim2SF f with
  | SpecFloat.S754_zero _ => Some 0%Q
  | SpecFloat.S754_finite s m e =>
      let v := (inject_Z (Z.pos m) * pow2 e)%Q in
      Some (if s then (- v)%Q else v)
  | _ => None
  end.

Definition float_of_nat (n : nat) : PrimFloat.float :=
  PrimFloat.of_uint63 (Uint63.of_Z (Z.of_nat n)).

End Double.

(** ** [components/ProgressTrackng.tsx] *)

Module Progress.

Import Double.

(** [interface Reference]: the member the component reads, a double by its
    exact value. *)
Record Reference : Type := {
  confidence_score : option Q
}.

(** [interface ResearchResult]: [references], read with [?.]. *)
Record ResearchResult : Type := {
  references : option (list Reference)
}.

(** [(ref.confidence_score || 0) > 0.8]; the literal is the double nearest
    to 0.8. *)
Definition high_confidence (ref : Reference) : bool :=
  let score := match confidence_score ref with
               | Some q => if Qeq_bool q 0 then 0%Q else q
               | None => 0%Q
               end in
  negb (Qle_bool score (round (8 # 10))).

(** [resultData.references?.length || 0]. *)
Definition totalSources (resultData : ResearchResult) : nat :=
  match references resultData with
  | Some refs => length refs
  | None => 0
  end.

(** [resultData.references?.filter(...).length || 0]. *)
Definition highConfidenceSources (resultData : ResearchResult) : nat :=
  match references resultData with
  | Some refs => length (List.filter high_confidence refs)
  | None => 0
  end.

(** [totalSources > 0 ? (highConfidenceSources / totalSources) * 100 : 0]. *)
Definition progressPercentage (resultData : ResearchResult) : number :=
  if (0 <? totalSources resultData)%nat then
    mul (div (of_nat (highConfidenceSources resultData)) (of_nat (totalSources resultData)))
        (Finite 100)
  else Finite 0.

End Progress.

(** ** [components/StatusDisplay.tsx]: the polling effect *)

Module StatusDisplay.

Import Types.

(** What the effect's [if] tests: [status === 'completed' || status === 'failed']. *)
Definition terminal (s : JobStatus) : bool :=
  match s with
  | completed | failed => true
  | queued | in_progress => false
  end.

(** What one run of the interval callback captured from its effect: the
    interval it belongs to and the [progress] of that render. *)
Record closure : Type := {
  cl_interval : nat;
  cl_progress : Q
}.

(** What the callback does once [await getJobStatus(jobId)] settles, in
    program order. *)
Inductive action : Type :=
  | SetStatus (s : JobStatus)
  | SetProgress (p : Q)
  | SetError (e : option string)
  | OnJobCompletion (jobId : string)
  | OnJobFailure (jobId : string) (msg : string)
  | ClearInterval (id : nat)
  | ConsoleError.

(** How [getJobStatus] settled: a status, or a rejection whose reason is an
    [Error] with a message ([Some]) or some other thrown value ([None]). *)
Inductive poll_result : Type :=
  | PollOk (r : JobStatusResponse)
  | PollErr (msg : option string).

(** The component: its three [useState] cells, the live interval of the
    current effect (if any), the callbacks still awaiting [getJobStatus],
    and the calls made so far to the two callback props. *)
Record state : Type := {
  status : JobStatus;
  progress : Q;
  error : option string;
  interval : option nat;
  next_interval : nat;
  pending : gmap nat closure;
  next_poll : nat;
  callbacks : list action
}.

Definition set_status (s : JobStatus) (st : state) : state :=
  {| status := s; progress := progress st; error := error st;
     interval := interval st; next_interval := next_interval st;
     pending := pending st; next_poll := next_poll st; callbacks := callbacks st |}.

Definition set_progress (p : Q) (st : state) : state :=
  {| status := status st; progress := p; error := error st;
     interval := interval st; next_interval := next_interval st;
     pending := pending st; next_poll := next_poll st; callbacks := callbacks st |}.

Definition set_error (e : option string) (st : state) : state :=
  {| status := status st; progress := progress st; error := e;
     interval := interval st; next_interval := next_interval st;
     pending := pending st; next_poll := next_poll st; callbacks := callbacks st |}.

Definition set_interval (i : option nat) (fresh : nat) (st : state) : state :=
  {| status := status st; progress := progress st; error := error st;
     interval := i; next_interval := fresh;
     pending := pending st; next_poll := next_poll st; callbacks := callbacks st |}.

Definition set_pending (p : gmap nat closure) (fresh : nat) (st : state) : state :=
  {| status := status st; progress := progress st; error := error st;
     interval := interval st; next_interval := next_interval st;
     pending := p; next_poll := fresh; callbacks := callbacks st |}.

Definition add_callback (a : action) (st : state) : state :=
  {| status := status st; progress := progress st; error := error st;
     interval := interval st; next_interval := next_interval st;
     pending := pending st; next_poll := next_poll st;
     callbacks := callbacks st ++ [a] |}.

Inductive event : Type :=
  | Tick                                   (* the live interval fires *)
  | Settle (k : nat) (r : poll_result).    (* the request of poll [k] settles *)

(** One statement of the callback. *)
Definition perform (st : state) (a : action) : state :=
  match a with
  | SetStatus s => set_status s st
  | SetProgress p => set_progress p st
  | SetError e => set_error e st
  | OnJobCompletion _ | OnJobFailure _ _ => add_callback a st
  | ClearInterval id =>
      match interval st with
      | Some live => if Nat.eqb live id then set_interval None (next_interval st) st else st
      | None => st
      end
  | ConsoleError => st
  end.

(** The effect body: nothing when the status is terminal, else a new
    interval. *)
Definition run_effect (st : state) : state :=
  if terminal (status st) then set_interval None (next_interval st) st
  else set_interval (Some (next_interval st)) (S (next_interval st)) st.

(** The render after an event: when [status] or [progress] changed (the
    other dependencies are props), the previous effect's cleanup clears its
    interval and the effect runs again. *)
Definition rerender (before after : state) : state :=
  if JobStatus_eqb (status before) (status after)
     && Qeq_bool (progress before) (progress after)
  then after
  else run_effect after.

(** The first render: [useState(initialStatus)], [useState(initialProgress)],
    [useState(null)], then the effect. *)
Definition mount (initialStatus : JobStatus) (initialProgress : Q) : state :=
  run_effect {| status := initialStatus; progress := initialProgress; error := None;
                interval := None; next_interval := 0; pending := ∅;
                next_poll := 0; callbacks := [] |}.

Section Component.

Variable jobId : string.

(** [currentJobStatus.error_message || `Job ${jobId} failed with an unknown error.`]. *)
Definition failureMsg (r : JobStatusResponse) : string :=
  match jsr_error_message r with
  | Some m =>
      if String.eqb m "" then "Job " +:+ jobId +:+ " failed with an unknown error." else m
  | None => "Job " +:+ jobId +:+ " failed with an unknown error."
  end.

(** The [try] body after the [await], and the [catch] body.  The product
    [progress * 100] is a double (a progress lies between 0 and 1, far from
    overflow). *)
Definition on_settled (c : closure) (r : poll_result) : list action :=
  match r with
  | PollOk currentJobStatus =>
      [ SetStatus (jsr_status currentJobStatus);
        SetProgress (match jsr_progress currentJobStatus with
                     | Some p => Double.round (p * 100)
                     | None => if JobStatus_eqb (jsr_status currentJobStatus) completed
                               then 100%Q else cl_progress c
                     end);
        SetError None ] ++
      (if JobStatus_eqb (jsr_status currentJobStatus) completed then
         [ OnJobCompletion jobId; ClearInterval (cl_interval c) ]
       else if JobStatus_eqb (jsr_status currentJobStatus) failed then
         [ SetError (Some (failureMsg currentJobStatus));
           OnJobFailure jobId (failureMsg currentJobStatus);
           ClearInterval (cl_interval c) ]
       else [])
  | PollErr msg =>
      [ SetError (Some (match msg with
                        | Some m => m
                        | None => "Failed to fetch job status."
                        end));
        ConsoleError ]
  end.

Definition step (st : state) (e : event) : option state :=
  match e with
  | Tick =>
      match interval st with
      | Some id =>
          Some (set_pending (<[next_poll st := {| cl_interval := id;
                                                  cl_progress := progress st |}]> (pending st))
                            (S (next_poll st)) st)
      | None => None
      end
  | Settle k r =>
      match pending st !! k with
      | Some c =>
          Some (rerender st
                  (fold_left perform (on_settled c r)
                     (set_pending (delete k (pending st)) (next_poll st) st)))
      | None => None
      end
  end.

Fixpoint run (st : state) (evs : list event) : option state :=
  match evs with
  | [] => Some st
  | e :: rest =>
      match step st e with
      | Some st' => run st' rest
      | None => None
      end
  end.

End Component.

End StatusDisplay.

(** ** [components/BatchLiveResearch.tsx]: [BatchResearchForm] *)

Module BatchForm.

Import Api.

(** The white space [trim] removes.  Of the ASCII range: space, tab, line
    feed, vertical tab, form feed, carriage return. *)
Definition is_space (c : Ascii.ascii) : bool :=
  let n := Ascii.nat_of_ascii c in
  Nat.eqb n 32 || (Nat.leb 9 n && Nat.leb n 13).

(** Beyond it, by their UTF-8 bytes: U+00A0 ([C2 A0]); *)
Definition is_space2 (c1 c2 : Ascii.ascii) : bool :=
  Nat.eqb (Ascii.nat_of_ascii c1) 194 && Nat.eqb (Ascii.nat_of_ascii c2) 160.

(** U+1680 ([E1 9A 80]), U+2000 to U+200A, U+2028, U+2029 and U+202F
    ([E2 80 80] to [E2 80 8A], [E2 80 A8], [E2 80 A9], [E2 80 AF]), U+205F
    ([E2 81 9F]), U+3000 ([E3 80 80]) and U+FEFF ([EF BB BF]). *)
Definition is_space3 (c1 c2 c3 : Ascii.ascii) : bool :=
  let n1 := Ascii.nat_of_ascii c1 in
  let n2 := Ascii.nat_of_ascii c2 in
  let n3 := Ascii.nat_of_ascii c3 in
  (Nat.eqb n1 225 && Nat.eqb n2 154 && Nat.eqb n3 128)
  || (Nat.eqb n1 226 && Nat.eqb n2 128 &&
      ((Nat.leb 128 n3 && Nat.leb n3 138) || Nat.eqb n3 168 || Nat.eqb n3 169
       || Nat.eqb n3 175))
  || (Nat.eqb n1 226 && Nat.eqb n2 129 && Nat.eqb n3 159)
  || (Nat.eqb n1 227 && Nat.eqb n2 128 && Nat.eqb n3 128)
  || (Nat.eqb n1 239 && Nat.eqb n2 187 && Nat.eqb n3 191).

(** [s.trim().length > 0], also the truth value of [s.trim()]: some
    character of [s] is not white space. *)
Fixpoint nonblank (s : string) : bool :=
  match s with
  | EmptyString => false
  | String c1 rest1 =>
      if is_space c1 then nonblank rest1
      else
        match rest1 with
        | EmptyString => true
        | String c2 rest2 =>
            if is_space2 c1 c2 then nonblank rest2
            else
              match rest2 with
              | EmptyString => true
              | String c3 rest3 =>
                  if is_space3 c1 c2 c3 then nonblank rest3 else true
              end
        end
  end.

(** What [getBatchResearchStatus] resolves to. *)
Record BatchStatus : Type := {
  bs_batch_id : string;
  bs_status : string;
  bs_progress : Q;
  bs_completed_topics : list string;
  bs_failed_topics : list string
}.

(** [interface BatchResearchResult], without the per-topic payload. *)
Record BatchResearchResult : Type := {
  batch_id : string;
  total_topics : nat;
  completed_topics : nat;
  failed_topics : nat;
  result_topics : list string;
  overall_confidence : Q;
  processing_time_seconds : Q
}.

(** The requests the component issues and the status answers it gets, in the
    order they happen. *)
Inductive call : Type :=
  | CallSubmit (topics : list string)
  | CallStatus (batchId : string)
  | StatusReturned (batchId : string) (status : string)
  | CallResults (batchId : string).

(** The component: its [useState] cells, the live interval of the polling
    effect, the requests still awaited (a poll remembers the [batchId] of
    the effect that started it), and the call log. *)
Record state : Type := {
  topics : list string;
  isSubmitting : bool;
  batchId : option string;
  batchStatus : option BatchStatus;
  results : option BatchResearchResult;
  interval : option nat;
  next_interval : nat;
  pending_submit : gmap nat unit;
  pending_status : gmap nat string;
  pending_results : gmap nat string;
  next_request : nat;
  log : list call
}.

Definition set_topics (ts : list string) (st : state) : state :=
  {| topics := ts; isSubmitting := isSubmitting st; batchId := batchId st;
     batchStatus := batchStatus st; results := results st;
     interval := interval st; next_interval := next_interval st;
     pending_submit := pending_submit st; pending_status := pending_status st;
     pending_results := pending_results st; next_request := next_request st;
     log := log st |}.

Definition set_isSubmitting (b : bool) (st : state) : state :=
  {| topics := topics st; isSubmitting := b; batchId := batchId st;
     batchStatus := batchStatus st; results := results st;
     interval := interval st; next_interval := next_interval st;
     pending_submit := pending_submit st; pending_status := pending_status st;
     pending_results := pending_results st; next_request := next_request st;
     log := log st |}.

Definition set_batchId (b : option string) (st : state) : state :=
  {| topics := topics st; isSubmitting := isSubmitting st; batchId := b;
     batchStatus := batchStatus st; results := results st;
     interval := interval st; next_interval := next_interval st;
     pending_submit := pending_submit st; pending_status := pending_status st;
     pending_results := pending_results st; next_request := next_request st;
     log := log st |}.

Definition set_batchStatus (s : option BatchStatus) (st : state) : state :=
  {| topics := topics st; isSubmitting := isSubmitting st; batchId := batchId st;
     batchStatus := s; results := results st;
     interval := interval st; next_interval := next_interval st;
     pending_submit := pending_submit st; pending_status := pending_status st;
     pending_results := pending_results st; next_request := next_request st;
     log := log st |}.

Definition set_results (r : option BatchResearchResult) (st : state) : state :=
  {| topics := topics st; isSubmitting := isSubmitting st; batchId := batchId st;
     batchStatus := batchStatus st; results := r;
     interval := interval st; next_interval := next_interval st;
     pending_submit := pending_submit st; pending_status := pending_status st;
     pending_results := pending_results st; next_request := next_request st;
     log := log st |}.

Definition set_interval (i : option nat) (fresh : nat) (st : state) : state :=
  {| topics := topics st; isSubmitting := isSubmitting st; batchId := batchId st;
     batchStatus := batchStatus st; results := results st;
     interval := i; next_interval := fresh;
     pending_submit := pending_submit st; pending_status := pending_status st;
     pending_results := pending_results st; next_request := next_request st;
     log := log st |}.

(** The awaited requests, with the next free request number. *)
Definition set_pending (sub : gmap nat unit) (stat res : gmap nat string)
    (fresh : nat) (st : state) : state :=
  {| topics := topics st; isSubmitting := isSubmitting st; batchId := batchId st;
     batchStatus := batchStatus st; results := results st;
     interval := interval st; next_interval := next_interval st;
     pending_submit := sub; pending_status := stat;
     pending_results := res; next_request := fresh;
     log := log st |}.

Definition add_log (entries : list call) (st : state) : state :=
  {| topics := topics st; isSubmitting := isSubmitting st; batchId := batchId st;
     batchStatus := batchStatus st; results := results st;
     interval := interval st; next_interval := next_interval st;
     pending_submit := pending_submit st; pending_status := pending_status st;
     pending_results := pending_results st; next_request := next_request st;
     log := log st ++ entries |}.

Inductive event : Type :=
  | SetTopics (ts : list string)
  | SubmitBatch
  | SubmitSettled (k : nat) (r : outcome string)       (* [response.batch_id] *)
  | Tick
  | StatusSettled (k : nat) (r : outcome BatchStatus)
  | ResultsSettled (k : nat) (r : outcome BatchResearchResult)
  | StopBatch
  | CloseResults.

Definition init : state :=
  {| topics := [""]; isSubmitting := false; batchId := None; batchStatus := None;
     results := None; interval := None; next_interval := 0;
     pending_submit := ∅; pending_status := ∅; pending_results := ∅;
     next_request := 0; log := [] |}.

(** [pollStatus] up to its first [await]: the status request goes out. *)
Definition start_poll (b : string) (st : state) : state :=
  set_pending (pending_submit st) (<[next_request st := b]> (pending_status st))
              (pending_results st) (S (next_request st))
    (add_log [CallStatus b] st).

(** [pollStatus] after [await getBatchResearchStatus(batchId)] resolved:
    [setBatchStatus], and on ['completed'] the results request goes out. *)
Definition status_resolved (b : string) (status : BatchStatus) (st : state) : state :=
  let st1 := add_log [StatusReturned b (bs_status status)]
               (set_batchStatus (Some status) st) in
  if String.eqb (bs_status status) "completed" then
    set_pending (pending_submit st1) (pending_status st1)
                (<[next_request st1 := b]> (pending_results st1)) (S (next_request st1))
      (add_log [CallResults b] st1)
  else st1.

(** The polling effect, run when [batchId] changed: the cleanup of the
    previous run clears its interval; with a non-empty [batchId] a new
    interval is set and [pollStatus] is called once at once. *)
Definition run_effect (st : state) : state :=
  match batchId st with
  | Some b =>
      if String.eqb b "" then set_interval None (next_interval st) st
      else start_poll b (set_interval (Some (next_interval st)) (S (next_interval st)) st)
  | None => set_interval None (next_interval st) st
  end.

Definition same_id (a b : option string) : bool :=
  match a, b with
  | Some x, Some y => String.eqb x y
  | None, None => true
  | _, _ => false
  end.

Definition rerender (before after : state) : state :=
  if same_id (batchId before) (batchId after) then after else run_effect after.

Definition step (st : state) (e : event) : option state :=
  match e with
  | SetTopics ts => Some (set_topics ts st)
  | SubmitBatch =>
      let validTopics := List.filter nonblank (topics st) in
      match validTopics with
      | [] => Some st
      | _ :: _ =>
          Some (set_pending (<[next_request st := tt]> (pending_submit st))
                            (pending_status st) (pending_results st) (S (next_request st))
                  (add_log [CallSubmit validTopics] (set_isSubmitting true st)))
      end
  | SubmitSettled k r =>
      match pending_submit st !! k with
      | Some _ =>
          let st1 := set_pending (delete k (pending_submit st)) (pending_status st)
                                 (pending_results st) (next_request st) st in
          Some (rerender st
                  (set_isSubmitting false
                     match r with
                     | Resolved b => set_batchId (Some b) st1
                     | Rejected _ => st1
                     end))
      | None => None
      end
  | Tick =>
      match interval st, batchId st with
      | Some _, Some b => Some (start_poll b st)
      | _, _ => None
      end
  | StatusSettled k r =>
      match pending_status st !! k with
      | Some b =>
          let st1 := set_pending (pending_submit st) (delete k (pending_status st))
                                 (pending_results st) (next_request st) st in
          match r with
          | Resolved status => Some (status_resolved b status st1)
          | Rejected _ => Some st1
          end
      | None => None
      end
  | ResultsSettled k r =>
      match pending_results st !! k with
      | Some _ =>
          let st1 := set_pending (pending_submit st) (pending_status st)
                                 (delete k (pending_results st)) (next_request st) st in
          match r with
          | Resolved batchResults => Some (set_results (Some batchResults) st1)
          | Rejected _ => Some st1
          end
      | None => None
      end
  | StopBatch =>
      Some (rerender st (set_results None (set_batchStatus None (set_batchId None st))))
  | CloseResults => Some (set_results None st)
  end.

Fixpoint run (st : state) (evs : list event) : option state :=
  match evs with
  | [] => Some st
  | e :: rest =>
      match step st e with
      | Some st' => run st' rest
      | None => None
      end
  end.

End BatchForm.

(** ** [components/BatchLiveResearch.tsx]: [LiveResearchSessionComponent] *)

Module LiveSession.

Import Api.

(** [WebSocket.readyState]. *)
Inductive ready_state : Type := CONNECTING | OPEN | CLOSING | CLOSED.

(** A [WebSocket] object: the session of its URL, its state and the frames
    it has sent. *)
Record socket : Type := {
  ws_session : string;
  ready : ready_state;
  sent : list value
}.

(** [ws.send(frame)]: throws while connecting ([None]), sends when open,
    and drops the frame once closing or closed. *)
Definition ws_send (frame : value) (w : socket) : option socket :=
  match ready w with
  | CONNECTING => None
  | OPEN => Some {| ws_session := ws_session w; ready := OPEN; sent := sent w ++ [frame] |}
  | CLOSING | CLOSED => Some w
  end.

(** [ws.close()]. *)
Definition ws_close (w : socket) : socket :=
  {| ws_session := ws_session w;
     ready := match ready w with CLOSED => CLOSED | _ => CLOSING end;
     sent := sent w |}.

(** [interface LiveResearchSummary], without the nested lists' payload. *)
Record LiveResearchSummary : Type := {
  sum_session_id : string;
  sum_topic : string;
  duration_minutes : Q;
  total_interactions : nat;
  key_findings : list string;
  questions_explored : list string
}.

(** The component: its [useState] cells, [wsRef.current] as the name of a
    socket in the store of the sockets created so far, the two kinds of
    request still awaited, and the sockets [close()] was called on. *)
Record state : Type := {
  session : option Types.LiveResearchSession;
  isStarting : bool;
  messages : list value;
  currentMessage : string;
  isSending : bool;
  summary : option LiveResearchSummary;
  sessionDuration : nat;
  wsRef : option nat;
  sockets : gmap nat socket;
  pending_start : gmap nat string;      (* request -> topic *)
  pending_end : gmap nat string;        (* request -> session id *)
  next_id : nat;
  close_calls : list nat
}.

Definition set_session (s : option Types.LiveResearchSession) (st : state) : state :=
  {| session := s; isStarting := isStarting st; messages := messages st;
     currentMessage := currentMessage st; isSending := isSending st;
     summary := summary st; sessionDuration := sessionDuration st;
     wsRef := wsRef st; sockets := sockets st;
     pending_start := pending_start st; pending_end := pending_end st;
     next_id := next_id st; close_calls := close_calls st |}.

Definition set_isStarting (b : bool) (st : state) : state :=
  {| session := session st; isStarting := b; messages := messages st;
     currentMessage := currentMessage st; isSending := isSending st;
     summary := summary st; sessionDuration := sessionDuration st;
     wsRef := wsRef st; sockets := sockets st;
     pending_start := pending_start st; pending_end := pending_end st;
     next_id := next_id st; close_calls := close_calls st |}.

(** [setMessages(prev => [...prev, entry])]. *)
Definition add_message (entry : value) (st : state) : state :=
  {| session := session st; isStarting := isStarting st;
     messages := messages st ++ [entry];
     currentMessage := currentMessage st; isSending := isSending st;
     summary := summary st; sessionDuration := sessionDuration st;
     wsRef := wsRef st; sockets := sockets st;
     pending_start := pending_start st; pending_end := pending_end st;
     next_id := next_id st; close_calls := close_calls st |}.

Definition set_currentMessage (text : string) (st : state) : state :=
  {| session := session st; isStarting := isStarting st; messages := messages st;
     currentMessage := text; isSending := isSending st;
     summary := summary st; sessionDuration := sessionDuration st;
     wsRef := wsRef st; sockets := sockets st;
     pending_start := pending_start st; pending_end := pending_end st;
     next_id := next_id st; close_calls := close_calls st |}.

Definition set_isSending (b : bool) (st : state) : state :=
  {| session := session st; isStarting := isStarting st; messages := messages st;
     currentMessage := currentMessage st; isSending := b;
     summary := summary st; sessionDuration := sessionDuration st;
     wsRef := wsRef st; sockets := sockets st;
     pending_start := pending_start st; pending_end := pending_end st;
     next_id := next_id st; close_calls := close_calls st |}.

Definition set_summary (s : option LiveResearchSummary) (st : state) : state :=
  {| session := session st; isStarting := isStarting st; messages := messages st;
     currentMessage := currentMessage st; isSending := isSending st;
     summary := s; sessionDuration := sessionDuration st;
     wsRef := wsRef st; sockets := sockets st;
     pending_start := pending_start st; pending_end := pending_end st;
     next_id := next_id st; close_calls := close_calls st |}.

Definition set_sessionDuration (n : nat) (st : state) : state :=
  {| session := session st; isStarting := isStarting st; messages := messages st;
     currentMessage := currentMessage st; isSending := isSending st;
     summary := summary st; sessionDuration := n;
     wsRef := wsRef st; sockets := sockets st;
     pending_start := pending_start st; pending_end := pending_end st;
     next_id := next_id st; close_calls := close_calls st |}.

Definition set_wsRef (r : option nat) (st : state) : state :=
  {| session := session st; isStarting := isStarting st; messages := messages st;
     currentMessage := currentMessage st; isSending := isSending st;
     summary := summary st; sessionDuration := sessionDuration st;
     wsRef := r; sockets := sockets st;
     pending_start := pending_start st; pending_end := pending_end st;
     next_id := next_id st; close_calls := close_calls st |}.

Definition set_sockets (s : gmap nat socket) (st : state) : state :=
  {| session := session st; isStarting := isStarting st; messages := messages st;
     currentMessage := currentMessage st; isSending := isSending st;
     summary := summary st; sessionDuration := sessionDuration st;
     wsRef := wsRef st; sockets := s;
     pending_start := pending_start st; pending_end := pending_end st;
     next_id := next_id st; close_calls := close_calls st |}.

(** The awaited requests, with the next free name. *)
Definition set_pending (starts ends : gmap nat string) (fresh : nat) (st : state) : state :=
  {| session := session st; isStarting := isStarting st; messages := messages st;
     currentMessage := currentMessage st; isSending := isSending st;
     summary := summary st; sessionDuration := sessionDuration st;
     wsRef := wsRef st; sockets := sockets st;
     pending_start := starts; pending_end := ends;
     next_id := fresh; close_calls := close_calls st |}.

Definition add_close_call (id : nat) (st : state) : state :=
  {| session := session st; isStarting := isStarting st; messages := messages st;
     currentMessage := currentMessage st; isSending := isSending st;
     summary := summary st; sessionDuration := sessionDuration st;
     wsRef := wsRef st; sockets := sockets st;
     pending_start := pending_start st; pending_end := pending_end st;
     next_id := next_id st; close_calls := close_calls st ++ [id] |}.

Inductive event : Type :=
  | SetCurrentMessage (text : string)
  | StartSession (topic : string)
  | StartSettled (k : nat) (r : outcome Types.LiveResearchSession)
  | StartThrew (k : nat) (newSession : Types.LiveResearchSession)
  | WsOpen (ws : nat)
  | WsFrame (ws : nat) (data : option value) (now : string)   (* [None]: not JSON *)
  | WsError (ws : nat)
  | WsClose (ws : nat)
  | SendMessage (now : string)
  | EndSession
  | EndSettled (k : nat) (r : outcome LiveResearchSummary)
  | CloseSummary
  | Second.

Definition init : state :=
  {| session := None; isStarting := false; messages := []; currentMessage := "";
     isSending := false; summary := None; sessionDuration := 0; wsRef := None;
     sockets := ∅; pending_start := ∅; pending_end := ∅; next_id := 0;
     close_calls := [] |}.

(** The own enumerable properties [{...data}] copies. *)
Definition spread (data : value) : list (string * value) :=
  match data with
  | VObj fields => fields
  | VArr items => imap (fun i v => (pretty i, v)) items
  | VStr s => imap (fun i u => (pretty i, VStr (unit_string u))) (utf16 s)
  | VUndefined | VNull | VBool _ | VNum _ => []
  end.

(** A later key of an object literal overrides an earlier one in place. *)
Fixpoint set_field (key : string) (v : value) (fields : list (string * value))
    : list (string * value) :=
  match fields with
  | [] => [(key, v)]
  | (k, old) :: rest =>
      if String.eqb k key then (k, v) :: rest else (k, old) :: set_field key v rest
  end.

(** The entry the [onMessage] callback appends:
    [{ ...data, timestamp: new Date().toISOString() }]. *)
Definition received_entry (data : value) (now : string) : value :=
  VObj (set_field "timestamp" (VStr now) (spread data)).

(** The entry [sendMessage] appends. *)
Definition user_entry (content now : string) : value :=
  VObj [("type", VStr "user_message"); ("content", VStr content);
        ("timestamp", VStr now); ("sender", VStr "user")].

(** The frame [sendMessage] sends. *)
Definition text_frame (content : string) : value :=
  VObj [("type", VStr "message"); ("content", VStr content);
        ("message_type", VStr "text")].

(** [startSession] after [await startLiveResearchSession(request)]
    resolved, when [new WebSocket(wsUrl)] returns: [setSession],
    [setSessionDuration(0)], and a new socket, still connecting, stored in
    [wsRef.current]. *)
Definition start_resolved (newSession : Types.LiveResearchSession) (st : state) : state :=
  let id := next_id st in
  let w := {| ws_session := Types.session_id newSession; ready := CONNECTING; sent := [] |} in
  set_pending (pending_start st) (pending_end st) (S id)
    (set_wsRef (Some id)
       (set_sockets (<[id := w]> (sockets st))
          (set_sessionDuration 0 (set_session (Some newSession) st)))).

(** [startSession] when the request resolved and [new WebSocket(wsUrl)]
    threw (the URL does not parse, or has a fragment: a session id with a
    [#]): [setSession] and [setSessionDuration(0)] are done, [wsRef.current]
    keeps what it held, and the [catch] block shows a toast. *)
Definition start_threw (newSession : Types.LiveResearchSession) (st : state) : state :=
  set_sessionDuration 0 (set_session (Some newSession) st).

(** [sendMessage]; [None] only for a reference that names no socket. *)
Definition sendMessage (now : string) (st : state) : option state :=
  match wsRef st with
  | None => Some st
  | Some id =>
      if negb (BatchForm.nonblank (currentMessage st)) || isSending st then Some st
      else
        match sockets st !! id with
        | None => None
        | Some w =>
            match ws_send (text_frame (currentMessage st)) w with
            | None => Some (set_isSending true st)       (* [send] threw *)
            | Some w' =>
                Some (set_isSending false
                        (set_currentMessage ""
                           (add_message (user_entry (currentMessage st) now)
                              (set_sockets (<[id := w']> (sockets st))
                                 (set_isSending true st)))))
            end
        end
  end.

(** [endSession] after [await endLiveResearchSession(...)] resolved. *)
Definition end_resolved (finalSummary : LiveResearchSummary) (st : state) : state :=
  let st1 := set_summary (Some finalSummary) st in
  let st2 := match wsRef st1 with
             | Some id =>
                 set_wsRef None
                   (add_close_call id (set_sockets (alter ws_close id (sockets st1)) st1))
             | None => st1
             end in
  set_session None st2.

Definition step (st : state) (e : event) : option state :=
  match e with
  | SetCurrentMessage text => Some (set_currentMessage text st)
  | StartSession topic =>
      Some (set_pending (<[next_id st := topic]> (pending_start st)) (pending_end st)
                        (S (next_id st))
              (set_isStarting true st))
  | StartSettled k r =>
      match pending_start st !! k with
      | Some _ =>
          let st1 := set_pending (delete k (pending_start st)) (pending_end st)
                                 (next_id st) st in
          Some (set_isStarting false
                  match r with
                  | Resolved newSession => start_resolved newSession st1
                  | Rejected _ => st1
                  end)
      | None => None
      end
  | StartThrew k newSession =>
      match pending_start st !! k with
      | Some _ =>
          let st1 := set_pending (delete k (pending_start st)) (pending_end st)
                                 (next_id st) st in
          Some (set_isStarting false (start_threw newSession st1))
      | None => None
      end
  | WsOpen id =>
      match sockets st !! id with
      | Some w =>
          match ready w with
          | CONNECTING =>
              Some (set_sockets (<[id := {| ws_session := ws_session w; ready := OPEN;
                                            sent := sent w |}]> (sockets st)) st)
          | _ => None
          end
      | None => None
      end
  | WsFrame id data now =>
      match sockets st !! id with
      | Some w =>
          match ready w with
          | OPEN | CLOSING =>
              match data with
              | Some d => Some (add_message (received_entry d now) st)
              | None => Some st                          (* [onError]: a toast *)
              end
          | _ => None
          end
      | None => None
      end
  | WsError id =>
      match sockets st !! id with
      | Some _ => Some st
      | None => None
      end
  | WsClose id =>
      match sockets st !! id with
      | Some w =>
          match ready w with
          | CLOSED => None
          | _ =>
              Some (set_sockets (<[id := {| ws_session := ws_session w; ready := CLOSED;
                                            sent := sent w |}]> (sockets st)) st)
          end
      | None => None
      end
  | SendMessage now => sendMessage now st
  | EndSession =>
      match session st with
      | Some sess =>
          Some (set_pending (pending_start st)
                            (<[next_id st := Types.session_id sess]> (pending_end st))
                            (S (next_id st)) st)
      | None => Some st
      end
  | EndSettled k r =>
      match pending_end st !! k with
      | Some _ =>
          let st1 := set_pending (pending_start st) (delete k (pending_end st))
                                 (next_id st) st in
          match r with
          | Resolved finalSummary => Some (end_resolved finalSummary st1)
          | Rejected _ => Some st1
          end
      | None => None
      end
  | CloseSummary => Some (set_summary None st)
  | Second =>
      match session st with
      | Some _ => Some (set_sessionDuration (S (sessionDuration st)) st)
      | None => None
      end
  end.

Fixpoint run (st : state) (evs : list event) : option state :=
  match evs with
  | [] => Some st
  | e :: rest =>
      match step st e with
      | Some st' => run st' rest
      | None => None
      end
  end.

End LiveSession.

(** ** The batch coordinator behind [/batch-research/{id}/results]

    The server side of the batch endpoints is not part of the client; the
    aggregation step is modelled from its description. *)

Module BatchCoordinator.

(** Modelled from the spec: the status of a member job of a batch, on the
    server (the job lifecycle manager is missing from the client sources):
    one of queued, in_progress, completed, failed, cancelled. *)
Inductive job_status : Type := queued | in_progress | completed | failed | cancelled.

(** Modelled from the spec: the terminal states of a job (the job lifecycle
    manager is missing): completed, failed and cancelled. *)
Definition terminal (s : job_status) : bool :=
  match s with
  | completed | failed | cancelled => true
  | queued | in_progress => false
  end.

(** Modelled from the spec: a member job of a batch as the coordinator sees
    it (the job store is missing): its topic, its status and, once
    completed, the confidence score of its result. *)
Record member : Type := {
  topic : string;
  status : job_status;
  confidence : Q
}.

(** Modelled from the spec: the aggregate result of a batch (the batch
    coordinator is missing): the per-topic outcomes, one count per outcome
    bucket, the overall confidence, and whether the batch is complete. *)
Record BatchResult : Type := {
  total : nat;
  outcomes : list (string * job_status);
  completed_count : nat;
  failed_count : nat;
  cancelled_count : nat;
  overall_confidence : Q;
  batch_completed : bool
}.

(** Modelled from the spec: the completed outcome bucket (the batch
    coordinator is missing). *)
Definition is_completed (m : member) : bool :=
  match status m with completed => true | _ => false end.

(** Modelled from the spec: the failed outcome bucket (the batch coordinator
    is missing). *)
Definition is_failed (m : member) : bool :=
  match status m with failed => true | _ => false end.

(** Modelled from the spec: the cancelled outcome bucket, kept apart from
    the failed one (the batch coordinator is missing). *)
Definition is_cancelled (m : member) : bool :=
  match status m with cancelled => true | _ => false end.

(** Modelled from the spec: the mean of the completed members' confidence
    scores, or 0 if none completed (the batch coordinator is missing). *)
Definition mean_confidence (members : list member) : Q :=
  let done := List.filter is_completed members in
  match done with
  | [] => 0
  | _ :: _ =>
      fold_right Qplus 0 (List.map confidence done) / inject_Z (Z.of_nat (length done))
  end.

(** Modelled from the spec: [aggregate] (the batch coordinator is missing):
    a per-topic map of each member's outcome, the counts of completed,
    failed and cancelled members, and the overall confidence; invoked early
    it reports the current snapshot with the batch flagged as not completed. *)
Definition aggregate (members : list member) : BatchResult :=
  {| total := length members;
     outcomes := List.map (fun m => (topic m, status m)) members;
     completed_count := length (List.filter is_completed members);
     failed_count := length (List.filter is_failed members);
     cancelled_count := length (List.filter is_cancelled members);
     overall_confidence := mean_confidence members;
     batch_completed := forallb (fun m => terminal (status m)) members |}.

End BatchCoordinator.

(** ** [lib/api.ts]: [createLiveResearchWebSocket] *)

Module LiveSocket.

(** [s.slice(n)]. *)
Fixpoint string_drop (n : nat) (s : string) : string :=
  match n, s with
  | O, _ => s
  | S n', String _ rest => string_drop n' rest
  | S _, EmptyString => EmptyString
  end.

(** [s.replace(pattern, replacement)] with a string pattern: the first
    occurrence only. *)
Fixpoint replace_first (pattern replacement s : string) : string :=
  if String.prefix pattern s then
    replacement +:+ string_drop (String.length pattern) s
  else
    match s with
    | EmptyString => EmptyString
    | String c rest => String c (replace_first pattern replacement rest)
    end.

(** [`${API_BASE_URL.replace('http', 'ws')}/live-research/${sessionId}/ws`]. *)
Definition wsUrl (API_BASE_URL sessionId : string) : string :=
  replace_first "http" "ws" API_BASE_URL +:+ "/live-research/" +:+ sessionId +:+ "/ws".

End LiveSocket.

(** ** [components/BatchLiveResearch.tsx]: editing the topic list *)

Module TopicList.

(** [useState<string[]>([''])]. *)
Definition initial : list string := [""].

(** [addTopic]: [setTopics([...topics, ''])]. *)
Definition addTopic (topics : list string) : list string := topics ++ [""].

(** [topics.filter((_, i) => i !== index)]. *)
Fixpoint filter_index (index i : nat) (topics : list string) : list string :=
  match topics with
  | [] => []
  | t :: rest =>
      if Nat.eqb i index then filter_index index (S i) rest
      else t :: filter_index index (S i) rest
  end.

(** [removeTopic]: only when more than one topic is left. *)
Definition removeTopic (index : nat) (topics : list string) : list string :=
  if (1 <? length topics)%nat then filter_index index 0 topics else topics.

(** [updateTopic]: a copy with [newTopics[index] = value].  The handler is
    attached to the rows rendered from [topics], so [index] is in range;
    outside it ([None]) the assignment would grow the array with holes. *)
Definition updateTopic (index : nat) (value : string) (topics : list string)
    : option (list string) :=
  if (index <? length topics)%nat then Some (<[index := value]> topics) else None.

Inductive edit : Type :=
  | Add
  | Remove (index : nat)
  | Update (index : nat) (value : string).

Definition apply_edit (topics : list string) (e : edit) : option (list string) :=
  match e with
  | Add => Some (addTopic topics)
  | Remove index => Some (removeTopic index topics)
  | Update index value => updateTopic index value topics
  end.

Fixpoint apply_edits (topics : list string) (es : list edit) : option (list string) :=
  match es with
  | [] => Some topics
  | e :: rest =>
      match apply_edit topics e with
      | Some topics' => apply_edits topics' rest
      | None => None
      end
  end.

(** The [disabled] attribute of the submit button:
    [isSubmitting || topics.every(t => !t.trim())]. *)
Definition submitDisabled (isSubmitting : bool) (topics : list string) : bool :=
  isSubmitting || forallb (fun t => negb (BatchForm.nonblank t)) topics.

(** The count in the button's label: [topics.filter(t => t.trim()).length]. *)
Definition labelCount (topics : list string) : nat :=
  length (List.filter BatchForm.nonblank topics).

End TopicList.

(** ** [components/BatchLiveResearch.tsx]: [formatDuration] *)

Module Duration.

(** The character [0]. *)
Definition zero : Ascii.ascii := Ascii.ascii_of_nat 48.

(** [s.padStart(targetLength, pad)] for a one-character [pad]. *)
Definition padStart (targetLength : nat) (pad : Ascii.ascii) (s : string) : string :=
  String.string_of_list_ascii (replicate (targetLength - String.length s) pad) +:+ s.

(** [`${Math.floor(seconds / 60)}:${(seconds % 60).toString().padStart(2, '0')}`],
    on the whole seconds the session timer counts. *)
Definition formatDuration (seconds : nat) : string :=
  pretty (seconds / 60)%nat +:+ ":" +:+ padStart 2 zero (pretty (seconds mod 60)%nat).

End Duration.

(** ** [EnhancedResultDisplay]: filtering and truncating references *)

Module ResultDisplay.

(** [interface Reference]: the members the result display reads. *)
Record Reference : Type := {
  title : string;
  source_type : option string;
  confidence_score : option Q;
  snippet : option string
}.

(** The argument of [onFilterChange]. *)
Record filters : Type := {
  sourceType : string;
  minConfidence : Q
}.

(** [ref.source_type === filters.sourceType]. *)
Definition has_source (wanted : string) (ref : Reference) : bool :=
  match source_type ref with
  | Some s => String.eqb s wanted
  | None => false
  end.

(** [ref.confidence_score || 0]. *)
Definition score (ref : Reference) : Q :=
  match confidence_score ref with
  | Some q => if Qeq_bool q 0 then 0%Q else q
  | None => 0%Q
  end.

(** [handleFilterChange], up to [setFilteredReferences]: from
    [resultData.references || []], the source filter unless ['all'], then
    the confidence filter when the threshold is positive. *)
Definition handleFilterChange (references : option (list Reference)) (f : filters)
    : list Reference :=
  let all := match references with Some refs => refs | None => [] end in
  let by_source :=
    if negb (String.eqb (sourceType f) "all")
    then List.filter (has_source (sourceType f)) all
    else all in
  if negb (Qle_bool (minConfidence f) 0)
  then List.filter (fun ref => Qle_bool (minConfidence f) (score ref)) by_source
  else by_source.

(** [ReferenceFilter] inside [EnhancedResultDisplay]: the two controls and
    the list the parent shows. *)
Record state : Type := {
  controls : filters;
  filteredReferences : list Reference
}.

Inductive event : Type :=
  | ChangeSourceType (v : string)
  | ChangeMinConfidence (q : Q).

Section Display.

Variable references : option (list Reference).

(** [useState('all')], [useState(0)], and
    [useState(resultData.references || [])] in the parent. *)
Definition init : state :=
  {| controls := {| sourceType := "all"; minConfidence := 0 |};
     filteredReferences := match references with Some refs => refs | None => [] end |}.

(** An [onChange] handler: the setter, then [handleFilterChange()], which
    reports the [sourceType] and [minConfidence] of the render the handler
    was created in. *)
Definition step (st : state) (e : event) : state :=
  {| controls :=
       match e with
       | ChangeSourceType v =>
           {| sourceType := v; minConfidence := minConfidence (controls st) |}
       | ChangeMinConfidence q =>
           {| sourceType := sourceType (controls st); minConfidence := q |}
       end;
     filteredReferences := handleFilterChange references (controls st) |}.

Definition run (st : state) (es : list event) : state := fold_left step es st.

End Display.

(** The collapsed snippet:
    [`${snippet.slice(0, 150)}${snippet.length > 150 ? '...' : ''}`], as
    its UTF-16 code units: [slice] cuts between code units, also inside a
    surrogate pair. *)
Definition collapsed (snippet : string) : list N :=
  take 150 (utf16 snippet) ++
  (if (150 <? utf16_length snippet)%nat then utf16 "..." else []).

End ResultDisplay.

(** ** [app/research/[jobId]/page.tsx]: the job page *)

Module JobPage.

Import Types.

(** [Pick<ResearchRequest, 'topic' | 'output_format' | 'deadline'>]. *)
Record Details : Type := {
  topic : string;
  output_format : string;
  deadline : option string
}.

(** The page's [useState] cells; [jobId] comes from the route ([''] when
    it is not a string). *)
Record state : Type := {
  jobId : string;
  initialStatus : option JobStatus;
  initialProgress : option Q;
  requestDetails : option Details;
  finalResult : value;
  pageError : option string;
  isLoadingInitialData : bool
}.

(** What the page renders. *)
Inductive view : Type :=
  | NoJobId
  | Loading
  | ErrorView (msg : string)
  | ResultView (result : value)
  | StatusView (status : JobStatus) (progress : option Q) (details : Details)
  | Preparing.

(** The truth value of [pageError]. *)
Definition error_shown (e : option string) : option string :=
  match e with
  | Some msg => if String.eqb msg "" then None else Some msg
  | None => None
  end.

(** The chain of [if]s before the final [return]. *)
Definition render (st : state) : view :=
  if String.eqb (jobId st) "" && negb (isLoadingInitialData st) then NoJobId
  else if isLoadingInitialData st then Loading
  else
    match error_shown (pageError st), truthy (finalResult st) with
    | Some msg, false => ErrorView msg
    | _, true => ResultView (finalResult st)
    | None, false =>
        match initialStatus st, requestDetails st with
        | Some status, Some details =>
            match status with
            | completed | failed => Preparing
            | queued | in_progress => StatusView status (initialProgress st) details
            end
        | _, _ => Preparing
        end
    end.

Definition set_loading (b : bool) (st : state) : state :=
  {| jobId := jobId st; initialStatus := initialStatus st;
     initialProgress := initialProgress st; requestDetails := requestDetails st;
     finalResult := finalResult st; pageError := pageError st;
     isLoadingInitialData := b |}.

Definition set_result (r : value) (e : option string) (st : state) : state :=
  {| jobId := jobId st; initialStatus := initialStatus st;
     initialProgress := initialProgress st; requestDetails := requestDetails st;
     finalResult := r; pageError := e;
     isLoadingInitialData := isLoadingInitialData st |}.

Definition set_error (e : option string) (st : state) : state :=
  {| jobId := jobId st; initialStatus := initialStatus st;
     initialProgress := initialProgress st; requestDetails := requestDetails st;
     finalResult := finalResult st; pageError := e;
     isLoadingInitialData := isLoadingInitialData st |}.

Definition set_initial (s : option JobStatus) (p : option Q) (d : option Details)
    (st : state) : state :=
  {| jobId := jobId st; initialStatus := s; initialProgress := p; requestDetails := d;
     finalResult := finalResult st; pageError := pageError st;
     isLoadingInitialData := isLoadingInitialData st |}.

(** The first render. *)
Definition mount (id : string) : state :=
  {| jobId := id; initialStatus := None; initialProgress := None;
     requestDetails := None; finalResult := VNull; pageError := None;
     isLoadingInitialData := true |}.

(** [err instanceof Error ? err.message : fallback]; a rejection's reason is
    an [Error] with a message ([Some]) or some other value ([None]). *)
Definition message_of (err : option string) (fallback : string) : string :=
  match err with
  | Some m => m
  | None => fallback
  end.

(** [handleJobCompletion] up to its [await]. *)
Definition handleJobCompletion_begin (st : state) : state := set_loading true st.

(** [handleJobCompletion] after [getJobResult] settled. *)
Definition handleJobCompletion_settled (r : value + option string) (st : state) : state :=
  set_loading false
    match r with
    | inl resultRes => set_result resultRes None st
    | inr err => set_result VNull (Some (message_of err "Failed to load results.")) st
    end.

(** [handleJobFailure]. *)
Definition handleJobFailure (errorMessage : string) (st : state) : state :=
  set_loading false
    (set_initial (Some failed) (initialProgress st) (requestDetails st)
       (set_error (Some errorMessage) st)).

(** [fetchInitialData] after [Promise.all] settled.  For a completed job
    [handleJobCompletion] is called and not awaited: it runs up to its
    [await], then [fetchInitialData] goes on. *)
Definition fetchInitialData_settled
    (r : (JobStatusResponse * Details) + option string) (st : state) : state :=
  set_loading false
    match r with
    | inl (statusRes, detailsRes) =>
        let st1 := set_initial (Some (jsr_status statusRes)) (jsr_progress statusRes)
                     (Some detailsRes) st in
        match jsr_status statusRes with
        | completed => handleJobCompletion_begin st1
        | failed => handleJobFailure "Job initially found in a failed state." st1
        | queued | in_progress => st1
        end
    | inr err => set_error (Some (message_of err "Error loading job information.")) st
    end.

End JobPage.

(** ** The job page with its status card

    [StatusDisplay] is rendered by the job page alone, with the page's
    [handleJobCompletion] and [handleJobFailure] as its callbacks.  The
    state updates of one callback run are applied together; then the page
    renders, and the card is mounted, kept or unmounted with it. *)

Module JobApp.

Import Types.

(** The page, the [StatusDisplay] it has mounted (if any), the
    [getJobStatus] requests still awaited by callbacks of cards unmounted
    since, whether [fetchInitialData] still awaits, and how many
    [getJobResult] requests do. *)
Record state : Type := {
  page : JobPage.state;
  display : option StatusDisplay.state;
  orphans : list StatusDisplay.closure;
  initial_pending : bool;
  results_pending : nat
}.

Inductive event : Type :=
  | InitialSettled (r : (JobStatusResponse * JobPage.Details) + option string)
  | Tick                                              (* the card's interval fires *)
  | PollSettled (k : nat) (r : StatusDisplay.poll_result)      (* a poll of the card *)
  | OrphanSettled (i : nat) (r : StatusDisplay.poll_result)    (* of an unmounted card *)
  | ResultSettled (r : value + option string).

(** The first render and the page's effect: without a job id it sets the
    error, else [fetchInitialData] starts. *)
Definition mount (id : string) : state :=
  if String.eqb id "" then
    {| page := JobPage.set_loading false
                 (JobPage.set_error (Some "No Job ID specified.") (JobPage.mount id));
       display := None; orphans := []; initial_pending := false; results_pending := 0 |}
  else
    {| page := JobPage.mount id; display := None; orphans := [];
       initial_pending := true; results_pending := 0 |}.

Definition is_callback (a : StatusDisplay.action) : bool :=
  match a with
  | StatusDisplay.OnJobCompletion _ | StatusDisplay.OnJobFailure _ _ => true
  | _ => false
  end.

(** A statement of the polling callback as the page sees it:
    [onJobCompletion] is [handleJobCompletion], which runs up to its
    [await] and leaves a [getJobResult] request; [onJobFailure] is
    [handleJobFailure]; a state update of a card concerns the card. *)
Definition notify (p : JobPage.state * nat) (a : StatusDisplay.action)
    : JobPage.state * nat :=
  match a with
  | StatusDisplay.OnJobCompletion _ => (JobPage.handleJobCompletion_begin (fst p), S (snd p))
  | StatusDisplay.OnJobFailure _ msg => (JobPage.handleJobFailure msg (fst p), snd p)
  | _ => p
  end.

(** Whether [handleJobCompletion]'s three updates after the [await] change
    the page's state (React renders only then). *)
Definition result_changes (before after : JobPage.state) : bool :=
  negb (same_value (JobPage.finalResult before) (JobPage.finalResult after)
        && bool_decide (JobPage.pageError before = JobPage.pageError after)
        && Bool.eqb (JobPage.isLoadingInitialData before)
                    (JobPage.isLoadingInitialData after)).

(** The card after an update of the page.  Where the page renders
    [StatusDisplay]: a card already mounted keeps its state, and when the
    page rendered anew its effect runs again (the two callbacks in its
    dependencies are new functions); else a new card is mounted, with
    [initialProgress = 0] for a missing progress.  Where the page renders
    something else the card is unmounted: its cleanup clears the interval,
    and the requests its callbacks await stay in flight. *)
Definition reconcile (rendered : bool) (p : JobPage.state)
    (d : option StatusDisplay.state) (orph : list StatusDisplay.closure)
    : option StatusDisplay.state * list StatusDisplay.closure :=
  match JobPage.render p with
  | JobPage.StatusView s progress _ =>
      match d with
      | Some c => (Some (if rendered then StatusDisplay.run_effect c else c), orph)
      | None =>
          (Some (StatusDisplay.mount s (match progress with Some q => q | None => 0%Q end)),
           orph)
      end
  | _ =>
      match d with
      | Some c => (None, (orph ++ (map_to_list (StatusDisplay.pending c)).*2)%list)
      | None => (None, orph)
      end
  end.

Definition step (st : state) (e : event) : option state :=
  let id := JobPage.jobId (page st) in
  match e with
  | InitialSettled r =>
      if initial_pending st then
        let p := JobPage.fetchInitialData_settled r (page st) in
        let started :=
          match r with
          | inl (statusRes, _) =>
              match jsr_status statusRes with completed => 1%nat | _ => 0%nat end
          | inr _ => 0%nat
          end in
        let dc := reconcile true p (display st) (orphans st) in
        Some {| page := p; display := fst dc; orphans := snd dc;
                initial_pending := false;
                results_pending := results_pending st + started |}
      else None
  | Tick =>
      match display st with
      | Some c =>
          match StatusDisplay.step id c StatusDisplay.Tick with
          | Some c' =>
              Some {| page := page st; display := Some c'; orphans := orphans st;
                      initial_pending := initial_pending st;
                      results_pending := results_pending st |}
          | None => None
          end
      | None => None
      end
  | PollSettled k r =>
      match display st with
      | Some c =>
          match StatusDisplay.pending c !! k,
                StatusDisplay.step id c (StatusDisplay.Settle k r) with
          | Some cl, Some c' =>
              let acts := StatusDisplay.on_settled id cl r in
              let pn := fold_left notify acts (page st, results_pending st) in
              let dc := reconcile (existsb is_callback acts) (fst pn) (Some c')
                                  (orphans st) in
              Some {| page := fst pn; display := fst dc; orphans := snd dc;
                      initial_pending := initial_pending st;
                      results_pending := snd pn |}
          | _, _ => None
          end
      | None => None
      end
  | OrphanSettled i r =>
      match orphans st !! i with
      | Some cl =>
          let acts := StatusDisplay.on_settled id cl r in
          let pn := fold_left notify acts (page st, results_pending st) in
          let dc := reconcile (existsb is_callback acts) (fst pn) (display st)
                              (delete i (orphans st)) in
          Some {| page := fst pn; display := fst dc; orphans := snd dc;
                  initial_pending := initial_pending st;
                  results_pending := snd pn |}
      | None => None
      end
  | ResultSettled r =>
      match results_pending st with
      | S n =>
          let p := JobPage.handleJobCompletion_settled r (page st) in
          let dc := reconcile (result_changes (page st) p) p (display st) (orphans st) in
          Some {| page := p; display := fst dc; orphans := snd dc;
                  initial_pending := initial_pending st; results_pending := n |}
      | O => None
      end
  end.

Fixpoint run (st : state) (evs : list event) : option state :=
  match evs with
  | [] => Some st
  | e :: rest =>
      match step st e with
      | Some st' => run st' rest
      | None => None
      end
  end.

End JobApp.

(** * Example inputs *)

Module Examples.

Definition no_content : Api.Response :=
  {| Api.status := 204; Api.statusText := "No Content"; Api.json := None |}.

Definition cancel_reply : Types.SuccessMessage :=
  {| Types.success := true; Types.message := "Job cancelled" |}.

Definition cancel_server (req : Api.Request) : Api.outcome Api.Response :=
  Api.Resolved {| Api.status := 200; Api.statusText := "OK";
                  Api.json := Some (Types.SuccessMessage_value cancel_reply) |}.


(** The scenario of two topics, one completed and one failed. *)
Definition two_topics : list BatchCoordinator.member :=
  [ {| BatchCoordinator.topic := "A"; BatchCoordinator.status := BatchCoordinator.completed;
       BatchCoordinator.confidence := 9 # 10 |};
    {| BatchCoordinator.topic := "B"; BatchCoordinator.status := BatchCoordinator.failed;
       BatchCoordinator.confidence := 0 |} ].

(** A batch of one topic whose second status poll says completed. *)
Definition batch_status (s : string) : Api.outcome BatchForm.BatchStatus :=
  Api.Resolved {| BatchForm.bs_batch_id := "b1"; BatchForm.bs_status := s;
                  BatchForm.bs_progress := 0; BatchForm.bs_completed_topics := [];
                  BatchForm.bs_failed_topics := [] |}.

Definition batch_events : list BatchForm.event :=
  [ BatchForm.SetTopics ["graph neural networks"]; BatchForm.SubmitBatch;
    BatchForm.SubmitSettled 0 (Api.Resolved "b1");
    BatchForm.StatusSettled 1 (batch_status "in_progress");
    BatchForm.Tick;
    BatchForm.StatusSettled 2 (batch_status "completed") ].

Definition batch_final : BatchForm.state :=
  default BatchForm.init (BatchForm.run BatchForm.init batch_events).

(** A live session: started, connected, one message typed. *)
Definition live_session : Types.LiveResearchSession :=
  {| Types.session_id := "s1"; Types.topic := "protein folding";
     Types.status := Types.active; Types.started_at := "12:00:00";
     Types.modalities := ["TEXT"; "AUDIO"]; Types.participants := None |}.

Definition assistant_frame : value :=
  VObj [("type", VStr "assistant_message"); ("content", VStr "Here is what I found.")].

Definition live_open : LiveSession.state :=
  default LiveSession.init
    (LiveSession.run LiveSession.init
       [ LiveSession.StartSession "protein folding";
         LiveSession.StartSettled 0 (Api.Resolved live_session);
         LiveSession.WsOpen 1;
         LiveSession.SetCurrentMessage "What is new?" ]).

Definition live_sent : LiveSession.state :=
  default live_open (LiveSession.step live_open (LiveSession.SendMessage "12:00:01")).

Definition live_replied : LiveSession.state :=
  default live_sent
    (LiveSession.step live_sent (LiveSession.WsFrame 1 (Some assistant_frame) "12:00:05")).

Definition live_ending : LiveSession.state :=
  default live_replied (LiveSession.step live_replied LiveSession.EndSession).

Definition live_end_failed : LiveSession.state :=
  default live_ending
    (LiveSession.step live_ending (LiveSession.EndSettled 2 (Api.Rejected Api.ENetwork))).

(** A job page polling a queued job: two polls overlap and are answered
    out of order. *)
Definition poll_answer (s : Types.JobStatus) : StatusDisplay.poll_result :=
  StatusDisplay.PollOk {| Types.jsr_job_id := "job-1"; Types.jsr_status := s;
                          Types.jsr_progress := None;
                          Types.jsr_error_message := None |}.

Definition poll_completed : StatusDisplay.state :=
  default (StatusDisplay.mount Types.queued 0)
    (StatusDisplay.run "job-1" (StatusDisplay.mount Types.queued 0)
       [ StatusDisplay.Tick; StatusDisplay.Tick;
         StatusDisplay.Settle 1 (poll_answer Types.completed) ]).

Definition poll_overwritten : StatusDisplay.state :=
  default poll_completed
    (StatusDisplay.step "job-1" poll_completed
       (StatusDisplay.Settle 0 (poll_answer Types.in_progress))).

End Examples.

Import Examples.

(** Further example inputs. *)

Module MoreExamples.

(** A poll that is answered before the next one starts. *)
Definition poll_done : StatusDisplay.state :=
  default (StatusDisplay.mount Types.queued 0)
    (StatusDisplay.run "job-1" (StatusDisplay.mount Types.queued 0)
       [ StatusDisplay.Tick; StatusDisplay.Settle 0 (poll_answer Types.completed) ]).

(** A poll that is answered with a failure without a message. *)
Definition poll_polling : StatusDisplay.state :=
  default (StatusDisplay.mount Types.queued 0)
    (StatusDisplay.step "job-1" (StatusDisplay.mount Types.queued 0) StatusDisplay.Tick).

Definition poll_failed : StatusDisplay.state :=
  default poll_polling
    (StatusDisplay.step "job-1" poll_polling
       (StatusDisplay.Settle 0 (poll_answer Types.failed))).

Definition poll_unreachable : StatusDisplay.state :=
  default poll_polling
    (StatusDisplay.step "job-1" poll_polling
       (StatusDisplay.Settle 0 (StatusDisplay.PollErr (Some "Failed to fetch")))).


(** A topic list with a blank row. *)
Definition some_topics : list string := ["graph neural networks"; "  "; "protein folding"].

Definition form_filled : BatchForm.state :=
  default BatchForm.init (BatchForm.step BatchForm.init (BatchForm.SetTopics some_topics)).

Definition form_submitted : BatchForm.state :=
  default form_filled (BatchForm.step form_filled BatchForm.SubmitBatch).

(** A live session whose socket is still connecting, with a message typed. *)
Definition live_connecting : LiveSession.state :=
  default LiveSession.init
    (LiveSession.run LiveSession.init
       [ LiveSession.StartSession "protein folding";
         LiveSession.StartSettled 0 (Api.Resolved live_session);
         LiveSession.SetCurrentMessage "What is new?" ]).

Definition live_stuck : LiveSession.state :=
  default live_connecting
    (LiveSession.step live_connecting (LiveSession.SendMessage "12:00:01")).

Definition live_stuck_later : LiveSession.state :=
  default live_stuck
    (LiveSession.run live_stuck
       [ LiveSession.WsOpen 1; LiveSession.SendMessage "12:00:09" ]).

(** A live session whose socket could not be constructed. *)
Definition live_no_socket : LiveSession.state :=
  default LiveSession.init
    (LiveSession.run LiveSession.init
       [ LiveSession.StartSession "protein folding";
         LiveSession.StartThrew 0 live_session;
         LiveSession.SetCurrentMessage "What is new?" ]).

(** A snippet of 149 letters followed by U+1F600 ([F0 9F 98 80]). *)
Definition long_snippet : string :=
  String.string_of_list_ascii
    (replicate 149 (Ascii.ascii_of_nat 97)
     ++ [Ascii.ascii_of_nat 240; Ascii.ascii_of_nat 159; Ascii.ascii_of_nat 152;
         Ascii.ascii_of_nat 128])%list.

(** A row of two no-break spaces (U+00A0, [C2 A0]) and a line separator
    (U+2028, [E2 80 A8]). *)
Definition unicode_blank : string :=
  String.string_of_list_ascii
    [Ascii.ascii_of_nat 194; Ascii.ascii_of_nat 160; Ascii.ascii_of_nat 194;
     Ascii.ascii_of_nat 160; Ascii.ascii_of_nat 226; Ascii.ascii_of_nat 128;
     Ascii.ascii_of_nat 168].

(** A result with 25 references, 7 of them with a score above 0.8; one
    with 3 references, 1 of them above 0.8. *)
Definition scored (q : Q) : Progress.Reference :=
  {| Progress.confidence_score := Some q |}.

Definition seven_of_25 : Progress.ResearchResult :=
  {| Progress.references := Some (replicate 7 (scored 1) ++ replicate 18 (scored (1 # 2)))%list |}.

Definition one_of_3 : Progress.ResearchResult :=
  {| Progress.references := Some [scored 1; scored (1 # 2); scored (1 # 4)] |}.

(** Three references of a result. *)
Definition some_references : list ResultDisplay.Reference :=
  [ {| ResultDisplay.title := "Attention"; ResultDisplay.source_type := Some "arxiv";
       ResultDisplay.confidence_score := Some (9 # 10); ResultDisplay.snippet := None |};
    {| ResultDisplay.title := "Trial"; ResultDisplay.source_type := Some "pubmed";
       ResultDisplay.confidence_score := Some (5 # 10); ResultDisplay.snippet := None |};
    {| ResultDisplay.title := "Blog"; ResultDisplay.source_type := None;
       ResultDisplay.confidence_score := None; ResultDisplay.snippet := Some "..." |} ].

(** What the job page loads for a queued job. *)
Definition queued_answer : Types.JobStatusResponse :=
  {| Types.jsr_job_id := "job-1"; Types.jsr_status := Types.queued;
     Types.jsr_progress := Some (1 # 10); Types.jsr_error_message := None |}.

Definition some_details : JobPage.Details :=
  {| JobPage.topic := "protein folding"; JobPage.output_format := "bullets";
     JobPage.deadline := None |}.







End MoreExamples.

Import MoreExamples.

(** * Predicates used in the statements *)

(** The claim's reading of a high-confidence reference: its
    [confidence_score] is present and above 0.8, both as doubles. *)
Definition claimed_high_confidence (ref : Progress.Reference) : bool :=
  match Progress.confidence_score ref with
  | Some q => negb (Qle_bool q (Double.round (8 # 10)))
  | None => false
  end.

(** The claim's reading of the result of cancelling, whatever its member
    is called: a record with a boolean member. *)
Definition claimed_shape (v : value) : bool :=
  match v with
  | VObj fields =>
      existsb (fun kv => match snd kv with VBool _ => true | _ => false end) fields
  | _ => false
  end.

(** The claim's reading of the message of the error for a failed response:
    the body's [detail], else its [message], else the default text. *)
Definition claimed_message (r : Api.Response) : value :=
  match Api.json r with
  | Some body =>
      match get body "detail", get body "message" with
      | Some d, Some m => or_else d (or_else m (VStr (Api.default_message r)))
      | _, _ => VStr (Api.default_message r)
      end
  | None => VStr (Api.default_message r)
  end.

(** Every results request in a call log comes right after a status answer
    ["completed"] for the same batch. *)
Definition results_follow_completed (l : list BatchForm.call) : Prop :=
  forall l1 b l2,
    l = (l1 ++ BatchForm.CallResults b :: l2)%list ->
    exists l0, l1 = (l0 ++ [BatchForm.StatusReturned b "completed"])%list.

(** The results requests for a batch in a call log, and the status answers
    ["completed"] for it. *)
Definition is_results_call (b : string) (c : BatchForm.call) : bool :=
  match c with
  | BatchForm.CallResults b' => String.eqb b' b
  | _ => false
  end.

Definition is_completed_answer (b : string) (c : BatchForm.call) : bool :=
  match c with
  | BatchForm.StatusReturned b' s => String.eqb b' b && String.eqb s "completed"
  | _ => false
  end.

(** The polling interval of the batch form is live exactly while a batch
    id is set. *)
Definition batch_polling_inv (st : BatchForm.state) : Prop :=
  BatchForm.interval st = None <->
  (BatchForm.batchId st = None \/ BatchForm.batchId st = Some "").

(** A call log holds as many results requests for each batch as status
    answers ["completed"] for it. *)
Definition log_balanced (l : list BatchForm.call) : Prop :=
  forall b, length (List.filter (is_results_call b) l) =
            length (List.filter (is_completed_answer b) l).









(** The seconds field of a duration read back: the number below 60 that
    [padStart] prints as the given two characters. *)
Definition read_seconds (field : string) : option nat :=
  List.find (fun k => String.eqb (Duration.padStart 2 Duration.zero (pretty k)) field)
            (seq 0 60).

(** * Properties *)

(** ** [handleApiResponse] and the endpoint wrappers *)

Lemma ok_range (r : Api.Response) :
  Api.ok r = true <-> (200 <= Api.status r <= 299)%N.
Proof.
  unfold Api.ok. rewrite andb_true_iff, !N.leb_le. tauto.
Qed.

Lemma read_error_body_message (body : value) (vars : Api.errvars) :
  Api.errorMessage (Api.read_error_body body vars) =
  (match get body "detail", get body "message" with
   | Some d, Some m => or_else d (or_else m (Api.errorMessage vars))
   | _, _ => Api.errorMessage vars
   end).
Proof.
  unfold Api.read_error_body, or_else.
  destruct body as [| |b|z|s|items|fields]; simpl; try reflexivity.
  destruct (truthy (field "detail" fields)); reflexivity.
Qed.

Lemma error_vars_message (r : Api.Response) :
  Api.errorMessage (Api.error_vars r) = claimed_message r.
Proof.
  unfold Api.error_vars, claimed_message.
  destruct (Api.json r) as [body|]; [|reflexivity].
  apply read_error_body_message.
Qed.


Lemma handleApiResponse_resolved (r : Api.Response) (v : value) :
  Api.handleApiResponse r = Api.Resolved v <-> Api.ok r = true /\ Api.json r = Some v.
Proof.
  unfold Api.handleApiResponse.
  destruct (Api.ok r); simpl.
  - destruct (Api.json r) as [b|]; split.
    + intros E. injection E as ->. auto.
    + intros [_ E]. injection E as ->. reflexivity.
    + discriminate.
    + intros [_ E]. discriminate E.
  - split; [discriminate | intros [E _]; discriminate E].
Qed.

(** C6, as stated, fails: a 204 response is [ok] and has no JSON body, and
    [handleApiResponse] returns nothing for it. *)
Lemma handleApiResponse_ok_without_json :
  ~ ((exists v, Api.handleApiResponse no_content = Api.Resolved v)
     <-> Api.ok no_content = true).
Proof.
  intros [_ H]. destruct (H eq_refl) as [v Hv]. discriminate Hv.
Qed.

(** C6, amended: [handleApiResponse] returns a value exactly when the
    response is [ok] and its body parses, and the value is the parsed body;
    an [ok] response whose body is not JSON rejects with the parse error;
    any other response returns nothing: it rejects with an [ApiError]
    carrying the HTTP status, whose message is the string conversion of the
    body's [detail] if truthy, else of its [message] if truthy, else the
    default text (also when the body is not JSON or is [null]); a string is
    its own conversion, and where the conversion throws, that [TypeError] is
    the rejection. *)
Theorem handleApiResponse_spec (r : Api.Response) :
  (forall v, Api.handleApiResponse r = Api.Resolved v
             <-> Api.ok r = true /\ Api.json r = Some v) /\
  (Api.ok r = true -> Api.json r = None ->
   Api.handleApiResponse r = Api.Rejected Api.ESyntaxError) /\
  (Api.ok r = false ->
   match to_string (claimed_message r) with
   | Some m =>
       exists e, Api.handleApiResponse r = Api.Rejected (Api.EApiError e) /\
                 Api.err_status e = Api.status r /\
                 Api.message e = m
   | None => Api.handleApiResponse r = Api.Rejected Api.ETypeError
   end) /\
  (forall s, claimed_message r = VStr s -> to_string (claimed_message r) = Some s).
Proof.
  split; [|split; [|split]].
  - intros v. apply handleApiResponse_resolved.
  - intros Hok Hjson. unfold Api.handleApiResponse. rewrite Hok, Hjson. reflexivity.
  - intros Hok. unfold Api.handleApiResponse, Api.new_ApiError.
    rewrite Hok, error_vars_message. simpl.
    destruct (to_string (claimed_message r)) as [m|]; [|reflexivity].
    eexists. split; [reflexivity|]. split; reflexivity.
  - intros s ->. reflexivity.
Qed.

(** A falsy [detail] gives way to [message]: the choice is by truth value,
    not by presence. *)
Example handleApiResponse_empty_detail :
  exists e,
    Api.handleApiResponse
      {| Api.status := 500; Api.statusText := "Internal Server Error";
         Api.json := Some (VObj [("detail", VStr ""); ("message", VStr "boom")]) |}
    = Api.Rejected (Api.EApiError e) /\
    Api.message e = "boom" /\ Api.err_status e = 500%N /\
    Api.code e = VStr "UNKNOWN_ERROR".
Proof. eexists. repeat split. Qed.

(** A [detail] that is not a string is converted: a list of validation
    errors prints as ["[object Object]"], an empty list as the empty
    message. *)
Example handleApiResponse_list_detail :
  (exists e,
     Api.handleApiResponse
       {| Api.status := 422; Api.statusText := "Unprocessable Entity";
          Api.json := Some (VObj [("detail", VArr [VObj [("msg", VStr "field required")]])]) |}
     = Api.Rejected (Api.EApiError e) /\ Api.message e = "[object Object]") /\
  (exists e,
     Api.handleApiResponse
       {| Api.status := 422; Api.statusText := "Unprocessable Entity";
          Api.json := Some (VObj [("detail", VArr [])]) |}
     = Api.Rejected (Api.EApiError e) /\ Api.message e = "").
Proof. split; eexists; split; reflexivity. Qed.



(** Against a server that answers with the declared record. *)
Example cancelJob_declared_reply :
  exists v, Api.cancelJob "http://localhost:8000" cancel_server "job-1" = Api.Resolved v /\
            Types.as_SuccessMessage v = Some cancel_reply /\
            claimed_shape v = true.
Proof. eexists. repeat split; reflexivity. Qed.

(** ** The wire types *)

(** C2, as stated, fails: no [JobStatus] is ["cancelled"], so not each of
    the five listed values is a possible status of a status response. *)
Lemma JobStatus_not_five :
  ~ (forall w, In w ["queued"; "in_progress"; "completed"; "failed"; "cancelled"] ->
               exists r : Types.JobStatusResponse,
                 Types.JobStatus_wire (Types.jsr_status r) = w).
Proof.
  intros H. destruct (H "cancelled") as [r Hr].
  - simpl. tauto.
  - destruct (Types.jsr_status r); discriminate Hr.
Qed.

(** C2, amended: the status of a submit response and of a status response
    is one of the four values queued, in_progress, completed, failed; each
    of the four is a possible status, and cancelled is not one. *)
Theorem JobStatus_four_values :
  (forall r : Types.JobSubmitResponse,
     In (Types.JobStatus_wire (Types.sub_status r))
        ["queued"; "in_progress"; "completed"; "failed"]) /\
  (forall r : Types.JobStatusResponse,
     In (Types.JobStatus_wire (Types.jsr_status r))
        ["queued"; "in_progress"; "completed"; "failed"]) /\
  (forall w, In w ["queued"; "in_progress"; "completed"; "failed"] <->
             exists s, Types.JobStatus_wire s = w) /\
  (forall s, Types.JobStatus_wire s <> "cancelled").
Proof.
  repeat split.
  - intros r. destruct (Types.sub_status r); simpl; tauto.
  - intros r. destruct (Types.jsr_status r); simpl; tauto.
  - simpl. intros [<-|[<-|[<-|[<-|[]]]]];
      [exists Types.queued | exists Types.in_progress
      | exists Types.completed | exists Types.failed]; reflexivity.
  - intros [s <-]. destruct s; simpl; tauto.
  - intros s. destruct s; discriminate.
Qed.

(** C8, as stated, fails: the third value of a live session's status is
    ["error"]; no session carries ["errored"]. *)
Lemma SessionStatus_not_errored :
  ~ (forall w, In w ["active"; "ended"; "errored"] ->
               exists s : Types.LiveResearchSession,
                 Types.SessionStatus_wire (Types.status s) = w).
Proof.
  intros H. destruct (H "errored") as [s Hs].
  - simpl. tauto.
  - destruct (Types.status s); discriminate Hs.
Qed.

(** C8, amended: as the client types it, the [status] member of a
    [LiveResearchSession] ranges over exactly the three values active,
    ended and error; errored is not one of them. *)
Theorem SessionStatus_three_values :
  (forall s : Types.LiveResearchSession,
     In (Types.SessionStatus_wire (Types.status s)) ["active"; "ended"; "error"]) /\
  (forall w, In w ["active"; "ended"; "error"] <->
             exists st, Types.SessionStatus_wire st = w) /\
  (forall st, Types.SessionStatus_wire st <> "errored").
Proof.
  repeat split.
  - intros s. destruct (Types.status s); simpl; tauto.
  - simpl. intros [<-|[<-|[<-|[]]]];
      [exists Types.active | exists Types.ended | exists Types.error]; reflexivity.
  - intros [st <-]. destruct st; simpl; tauto.
  - intros st. destruct st; discriminate.
Qed.

(** ** Rounding to the nearest double *)

Section Rounding.

Import Double.

Lemma pow2_pos (e : Z) : (0 < pow2 e)%Q.
Proof. apply Qpower_0_lt. reflexivity. Qed.

Lemma pow2_add (a b : Z) : (pow2 (a + b) == pow2 a * pow2 b)%Q.
Proof. apply Qpower_plus. discriminate. Qed.

Lemma pow2_le (a b : Z) : (a <= b)%Z -> (pow2 a <= pow2 b)%Q.
Proof. intros H. apply Qpower_le_compat_l; [exact H | discriminate]. Qed.

Lemma pow2_lt_inv (a b : Z) : (pow2 a < pow2 b)%Q -> (a < b)%Z.
Proof. intros H. apply (Qpower_lt_compat_l_inv 2); [exact H | reflexivity]. Qed.

Lemma pow2_Z (n : Z) : (0 <= n)%Z -> (pow2 n == inject_Z (2 ^ n))%Q.
Proof. intros H. symmetry. apply (Zpower_Qpower 2 n H). Qed.

(** [ilog2] finds the binade. *)
Lemma ilog2_spec (q : Q) :
  (0 < q)%Q -> (pow2 (ilog2 q) <= q)%Q /\ (q < pow2 (ilog2 q + 1))%Q.
Proof.
  intros Hq. unfold ilog2.
  destruct q as [n d]. simpl Qnum. simpl Qden.
  assert (Hn : (0 < n)%Z).
  { unfold Qlt in Hq. simpl in Hq. lia. }
  set (a := Z.log2 n). set (b := Z.log2 (Z.pos d)).
  destruct (Z.log2_spec n Hn) as [Ha1 Ha2]. fold a in Ha1, Ha2.
  destruct (Z.log2_spec (Z.pos d) eq_refl) as [Hb1 Hb2]. fold b in Hb1, Hb2.
  assert (Ha0 : (0 <= a)%Z) by apply Z.log2_nonneg.
  assert (Hb0 : (0 <= b)%Z) by apply Z.log2_nonneg.
  assert (Hd : (0 < inject_Z (Z.pos d))%Q) by reflexivity.
  assert (Hq' : (n # d == inject_Z n / inject_Z (Z.pos d))%Q) by apply Qmake_Qdiv.
  destruct (Qle_bool (pow2 (a - b)) (n # d)) eqn:E.
  - apply Qle_bool_iff in E. split; [exact E|].
    rewrite Hq'. apply Qlt_shift_div_r; [exact Hd|].
    apply Qlt_le_trans with (pow2 (a + 1)).
    + rewrite pow2_Z by lia. rewrite <- Zlt_Qlt. unfold Z.succ in Ha2. exact Ha2.
    + replace (a + 1)%Z with ((a - b + 1) + b)%Z by lia. rewrite pow2_add.
      apply Qmult_le_l; [apply pow2_pos|].
      rewrite pow2_Z by lia. rewrite <- Zle_Qle. exact Hb1.
  - assert (E' : ~ (pow2 (a - b) <= n # d)%Q).
    { intros H. apply Qle_bool_iff in H. congruence. }
    apply Qnot_le_lt in E'. split.
    + rewrite Hq'. apply Qle_shift_div_l; [exact Hd|].
      apply Qle_trans with (pow2 a).
      * replace a with ((a - b - 1) + (b + 1))%Z at 2 by lia. rewrite pow2_add.
        apply Qmult_le_l; [apply pow2_pos|].
        rewrite pow2_Z by lia. rewrite <- Zle_Qle. unfold Z.succ in Hb2. lia.
      * rewrite pow2_Z by lia. rewrite <- Zle_Qle. exact Ha1.
    + replace (a - b - 1 + 1)%Z with (a - b)%Z by lia. exact E'.
Qed.

Lemma ilog2_le (x y : Q) : (0 < x)%Q -> (x <= y)%Q -> (ilog2 x <= ilog2 y)%Z.
Proof.
  intros Hx Hxy.
  assert (Hy : (0 < y)%Q) by (apply Qlt_le_trans with x; assumption).
  destruct (ilog2_spec x Hx) as [H1 _]. destruct (ilog2_spec y Hy) as [_ H2].
  assert (H : (ilog2 x < ilog2 y + 1)%Z).
  { apply pow2_lt_inv. apply Qle_lt_trans with x; [exact H1|].
    apply Qle_lt_trans with y; assumption. }
  lia.
Qed.

Lemma nearest_even_floor (x : Q) :
  (Qfloor x <= nearest_even x <= Qfloor x + 1)%Z.
Proof.
  unfold nearest_even. destruct (_ ?= _)%Q; [destruct (Z.even _)| |]; lia.
Qed.

Lemma nearest_even_lower (x : Q) (n : Z) :
  (inject_Z n <= x)%Q -> (n <= nearest_even x)%Z.
Proof.
  intros H. apply Qfloor_resp_le in H. rewrite Qfloor_Z in H.
  pose proof (nearest_even_floor x). lia.
Qed.

Lemma nearest_even_upper (x : Q) (n : Z) :
  (x <= inject_Z n)%Q -> (nearest_even x <= n)%Z.
Proof.
  intros H. pose proof (nearest_even_floor x) as Hf.
  pose proof (Qfloor_resp_le _ _ H) as Hfl. rewrite Qfloor_Z in Hfl.
  destruct (Z.eq_dec (Qfloor x) n) as [E|E]; [|lia].
  assert (Hx : (x == inject_Z n)%Q).
  { apply Qle_antisym; [exact H|]. rewrite <- E. apply Qfloor_le. }
  unfold nearest_even. rewrite E.
  assert (Hlt : (x - inject_Z n ?= 1 # 2)%Q = Lt).
  { apply Qlt_alt. rewrite Hx. unfold Qminus. rewrite Qplus_opp_r. reflexivity. }
  rewrite Hlt. lia.
Qed.

Lemma nearest_even_le (x y : Q) :
  (x <= y)%Q -> (nearest_even x <= nearest_even y)%Z.
Proof.
  intros H. pose proof (Qfloor_resp_le _ _ H) as Hfl.
  pose proof (nearest_even_floor x) as Hx. pose proof (nearest_even_floor y) as Hy.
  destruct (Z.eq_dec (Qfloor x) (Qfloor y)) as [E|E]; [|lia].
  unfold nearest_even. rewrite <- E.
  assert (Hr : (x - inject_Z (Qfloor x) <= y - inject_Z (Qfloor x))%Q).
  { unfold Qminus. apply Qplus_le_l. exact H. }
  destruct (x - inject_Z (Qfloor x) ?= 1 # 2)%Q eqn:Cx;
    destruct (y - inject_Z (Qfloor x) ?= 1 # 2)%Q eqn:Cy;
    try (destruct (Z.even (Qfloor x))); try lia; exfalso;
    repeat match goal with
           | H : (_ ?= _)%Q = Eq |- _ => apply Qeq_alt in H
           | H : (_ ?= _)%Q = Lt |- _ => apply Qlt_alt in H
           | H : (_ ?= _)%Q = Gt |- _ => apply Qgt_alt in H
           end; lra.
Qed.

Lemma round_pos_nonneg (q : Q) : (0 < q)%Q -> (0 <= round_pos q)%Q.
Proof.
  intros Hq. unfold round_pos.
  apply Qmult_le_0_compat; [|apply Qlt_le_weak, pow2_pos].
  change 0%Q with (inject_Z 0). rewrite <- Zle_Qle. apply nearest_even_lower.
  apply Qle_shift_div_l; [apply pow2_pos|]. rewrite Qmult_0_l.
  apply Qlt_le_weak. exact Hq.
Qed.

(** Within a binade rounding to the nearest is monotone; across binades the
    powers of two in between, doubles themselves, keep the order. *)
Lemma round_pos_le (x y : Q) :
  (0 < x)%Q -> (x <= y)%Q -> (round_pos x <= round_pos y)%Q.
Proof.
  intros Hx Hxy.
  assert (Hy : (0 < y)%Q) by (apply Qlt_le_trans with x; assumption).
  pose proof (ilog2_le x y Hx Hxy) as He.
  unfold round_pos.
  set (ex := Z.max (ilog2 x) (-1022)). set (ey := Z.max (ilog2 y) (-1022)).
  destruct (Z.eq_dec ex ey) as [E|E].
  - rewrite E. apply Qmult_le_compat_r; [|apply Qlt_le_weak, pow2_pos].
    rewrite <- Zle_Qle. apply nearest_even_le.
    unfold Qdiv. apply Qmult_le_compat_r; [exact Hxy|].
    apply Qinv_le_0_compat, Qlt_le_weak, pow2_pos.
  - assert (Hlt : (ex + 1 <= ey)%Z) by lia.
    assert (Hey : ey = ilog2 y) by lia.
    apply Qle_trans with (pow2 ey).
    + apply Qle_trans with (pow2 (ex + 1)); [|apply pow2_le; exact Hlt].
      assert (Hsplit : (pow2 (ex + 1) == inject_Z (2 ^ 53) * pow2 (ex - 52))%Q).
      { rewrite <- pow2_Z by lia. rewrite <- pow2_add.
        replace (53 + (ex - 52))%Z with (ex + 1)%Z by lia. reflexivity. }
      rewrite Hsplit.
      apply Qmult_le_compat_r; [|apply Qlt_le_weak, pow2_pos].
      rewrite <- Zle_Qle. apply nearest_even_upper.
      apply Qle_shift_div_r; [apply pow2_pos|]. rewrite <- Hsplit.
      apply Qlt_le_weak. apply Qlt_le_trans with (pow2 (ilog2 x + 1)).
      * apply ilog2_spec. exact Hx.
      * apply pow2_le. lia.
    + assert (Hsplit : (pow2 ey == inject_Z (2 ^ 52) * pow2 (ey - 52))%Q).
      { rewrite <- pow2_Z by lia. rewrite <- pow2_add.
        replace (52 + (ey - 52))%Z with ey by lia. reflexivity. }
      rewrite Hsplit at 1.
      apply Qmult_le_compat_r; [|apply Qlt_le_weak, pow2_pos].
      rewrite <- Zle_Qle. apply nearest_even_lower.
      apply Qle_shift_div_l; [apply pow2_pos|]. rewrite <- Hsplit.
      rewrite Hey. apply ilog2_spec. exact Hy.
Qed.

Lemma round_le (x y : Q) : (0 <= x)%Q -> (x <= y)%Q -> (round x <= round y)%Q.
Proof.
  intros Hx Hxy. unfold round.
  destruct (x ?= 0)%Q eqn:Cx; destruct (y ?= 0)%Q eqn:Cy;
    repeat match goal with
           | H : (_ ?= _)%Q = Eq |- _ => apply Qeq_alt in H
           | H : (_ ?= _)%Q = Lt |- _ => apply Qlt_alt in H
           | H : (_ ?= _)%Q = Gt |- _ => apply Qgt_alt in H
           end; try lra.
  - apply round_pos_nonneg. exact Cy.
  - apply round_pos_le; assumption.
Qed.

Lemma round_eq (x y : Q) : (0 <= x)%Q -> (x == y)%Q -> (round x == round y)%Q.
Proof.
  intros Hx E. apply Qle_antisym; apply round_le; lra.
Qed.

Lemma round_zero : (round 0 == 0)%Q.
Proof. reflexivity. Qed.

Lemma round_one : (round 1 == 1)%Q.
Proof. vm_compute. reflexivity. Qed.

Lemma round_hundred : (round 100 == 100)%Q.
Proof. vm_compute. reflexivity. Qed.

Lemma round_nonneg (x : Q) : (0 <= x)%Q -> (0 <= round x)%Q.
Proof.
  intros Hx. pose proof (round_le 0 x (Qle_refl 0) Hx) as H.
  rewrite round_zero in H. exact H.
Qed.

Lemma round_le_one (x : Q) : (0 <= x)%Q -> (x <= 1)%Q -> (round x <= 1)%Q.
Proof.
  intros H0 H1. pose proof (round_le x 1 H0 H1) as H.
  rewrite round_one in H. exact H.
Qed.

Lemma round_le_hundred (x : Q) : (0 <= x)%Q -> (x <= 100)%Q -> (round x <= 100)%Q.
Proof.
  intros H0 H1. pose proof (round_le x 100 H0 H1) as H.
  rewrite round_hundred in H. exact H.
Qed.

(** A result between 0 and 100 does not overflow. *)
Lemma double_small (q : Q) :
  (0 <= q)%Q -> (q <= 100)%Q ->
  double q = Finite (round q) /\ (0 <= round q <= 100)%Q.
Proof.
  intros H0 H100.
  pose proof (round_nonneg q H0) as Hr0.
  pose proof (round_le_hundred q H0 H100) as Hr100.
  split; [|split; assumption].
  unfold double.
  destruct (Qle_bool (pow2 1024) (Qabs (round q))) eqn:E; [|reflexivity].
  apply Qle_bool_iff in E. rewrite Qabs_pos in E by exact Hr0.
  assert (Hbig : (100 < pow2 1024)%Q) by (vm_compute; reflexivity).
  lra.
Qed.

(** The rounding is that of the kernel's binary64 arithmetic, on the
    quotients and products of the examples. *)
Example round_is_binary64 :
  option_map Qred (exact (PrimFloat.div (float_of_nat 7) (float_of_nat 25)))
    = Some (Qred (round (7 / 25))) /\
  option_map Qred (exact (PrimFloat.mul (PrimFloat.div (float_of_nat 7) (float_of_nat 25))
                                        (float_of_nat 100)))
    = Some (Qred (round (round (7 / 25) * 100))) /\
  option_map Qred (exact (PrimFloat.mul (PrimFloat.div (float_of_nat 1) (float_of_nat 3))
                                        (float_of_nat 100)))
    = Some (Qred (round (round (1 / 3) * 100))) /\
  option_map Qred (exact (PrimFloat.div (float_of_nat 8) (float_of_nat 10)))
    = Some (Qred (round (8 # 10))).
Proof. repeat split; vm_compute; reflexivity. Qed.

End Rounding.

(** ** The research-quality percentage *)

Lemma high_confidence_claimed (ref : Progress.Reference) :
  Progress.high_confidence ref = claimed_high_confidence ref.
Proof.
  unfold Progress.high_confidence, claimed_high_confidence.
  destruct (Progress.confidence_score ref) as [q|]; [|reflexivity].
  destruct (Qeq_bool q 0) eqn:Hq; [|reflexivity].
  apply Qeq_bool_iff in Hq.
  assert (Hle : Qle_bool q (Double.round (8 # 10)) = true).
  { apply Qle_bool_iff. rewrite Hq. vm_compute. discriminate. }
  rewrite Hle. reflexivity.
Qed.

Lemma highConfidenceSources_le (r : Progress.ResearchResult) :
  (Progress.highConfidenceSources r <= Progress.totalSources r)%nat.
Proof.
  unfold Progress.highConfidenceSources, Progress.totalSources.
  destruct (Progress.references r) as [refs|]; [|lia].
  apply List.filter_length_le.
Qed.

Lemma ratio_bounds (h t : nat) :
  (0 < t)%nat -> (h <= t)%nat ->
  (0 <= inject_Z (Z.of_nat h) / inject_Z (Z.of_nat t) <= 1)%Q.
Proof.
  intros Ht Hle.
  assert (Hpos : (0 < inject_Z (Z.of_nat t))%Q).
  { change 0%Q with (inject_Z 0). rewrite <- Zlt_Qlt. lia. }
  split.
  - apply Qle_shift_div_l; [exact Hpos|]. rewrite Qmult_0_l.
    change 0%Q with (inject_Z 0). rewrite <- Zle_Qle. lia.
  - apply Qle_shift_div_r; [exact Hpos|]. rewrite Qmult_1_l.
    rewrite <- Zle_Qle. lia.
Qed.

(** The percentage of [h] out of [t > 0] references: the quotient rounded,
    times 100, rounded. *)
Lemma percentage_bounds (h t : nat) :
  (0 < t)%nat -> (h <= t)%nat ->
  let x := Double.round (inject_Z (Z.of_nat h) / inject_Z (Z.of_nat t)) in
  Double.mul (Double.div (Double.of_nat h) (Double.of_nat t)) (Double.Finite 100)
    = Double.Finite (Double.round (x * 100)) /\
  (0 <= Double.round (x * 100) <= 100)%Q /\
  (h = 0%nat -> Double.round (x * 100) == 0)%Q /\
  (h = t -> Double.round (x * 100) == 100)%Q.
Proof.
  intros Ht Hle x.
  destruct (ratio_bounds h t Ht Hle) as [Hq0 Hq1].
  assert (Hnz : Qeq_bool (inject_Z (Z.of_nat t)) 0 = false).
  { destruct (Qeq_bool _ 0) eqn:E; [|reflexivity].
    apply Qeq_bool_iff in E. unfold Qeq in E. simpl in E. lia. }
  assert (Hx0 : (0 <= x)%Q) by (apply round_nonneg; exact Hq0).
  assert (Hx1 : (x <= 1)%Q) by (apply round_le_one; assumption).
  assert (Hdiv : Double.double (inject_Z (Z.of_nat h) / inject_Z (Z.of_nat t))
                 = Double.Finite x).
  { apply double_small; lra. }
  assert (Hp0 : (0 <= x * 100)%Q) by (apply Qmult_le_0_compat; lra).
  assert (Hp1 : (x * 100 <= 100)%Q) by lra.
  destruct (double_small (x * 100) Hp0 Hp1) as [Hmul Hb].
  split; [|split; [exact Hb|split]].
  - unfold Double.div, Double.of_nat. rewrite Hnz, Hdiv. exact Hmul.
  - intros ->.
    assert (E : (x == 0)%Q).
    { unfold x. apply Qeq_trans with (Double.round 0); [|exact round_zero].
      apply round_eq; [exact Hq0|]. unfold Qdiv. simpl. apply Qmult_0_l. }
    apply Qeq_trans with (Double.round 0); [|exact round_zero].
    apply round_eq; [exact Hp0|]. rewrite E. reflexivity.
  - intros ->.
    assert (E : (x == 1)%Q).
    { unfold x. apply Qeq_trans with (Double.round 1); [|exact round_one].
      apply round_eq; [exact Hq0|].
      apply Qmult_inv_r. intros E. apply Qeq_bool_iff in E. congruence. }
    apply Qeq_trans with (Double.round 100); [|exact round_hundred].
    apply round_eq; [exact Hp0|]. rewrite E. reflexivity.
Qed.

(** C9, as stated, fails: with 7 of 25 references above 0.8 the percentage
    is not 100 times 7 divided by 25 (28): the quotient 7/25 is rounded,
    and its product with 100 is the next double above 28; nor is it, with 1
    of 3, the double nearest to 100/3. *)
Lemma progressPercentage_not_exact :
  (exists q, Progress.progressPercentage seven_of_25 = Double.Finite q /\
             ~ (q == 100 * inject_Z 7 / inject_Z 25)%Q /\
             (q == 28 + Double.pow2 (-48))%Q) /\
  (exists q, Progress.progressPercentage one_of_3 = Double.Finite q /\
             ~ (q == 100 * inject_Z 1 / inject_Z 3)%Q /\
             ~ (q == Double.round (100 * inject_Z 1 / inject_Z 3))%Q).
Proof.
  split; eexists; (split; [vm_compute; reflexivity|]); split;
    vm_compute; discriminate || reflexivity.
Qed.

(** C9, amended: the research-quality percentage is always a finite number
    between 0 and 100; it is 0 when there are no references (or the field is
    absent), and otherwise the double [(high / total) * 100]: the number of
    references whose confidence score is above 0.8 divided by the number of
    references, rounded to the nearest double, times 100, rounded again
    (exactly 0 when no reference is above 0.8, exactly 100 when all are). *)
Theorem progressPercentage_spec (r : Progress.ResearchResult) :
  exists q,
    Progress.progressPercentage r = Double.Finite q /\
    (0 <= q <= 100)%Q /\
    match Progress.references r with
    | None | Some [] => q = 0%Q
    | Some refs =>
        let high := length (List.filter claimed_high_confidence refs) in
        let total := length refs in
        q = Double.round
              (Double.round (inject_Z (Z.of_nat high) / inject_Z (Z.of_nat total)) * 100) /\
        (high = 0%nat -> q == 0)%Q /\
        (high = total -> q == 100)%Q
    end.
Proof.
  pose proof (highConfidenceSources_le r) as Hle.
  unfold Progress.progressPercentage.
  destruct (0 <? Progress.totalSources r)%nat eqn:Hpos.
  - apply Nat.ltb_lt in Hpos.
    destruct (percentage_bounds _ _ Hpos Hle) as (Heq & Hb & H0 & H100).
    eexists. split; [exact Heq|]. split; [exact Hb|].
    revert Hpos H0 H100.
    unfold Progress.totalSources, Progress.highConfidenceSources.
    destruct (Progress.references r) as [refs|]; [|simpl; lia].
    rewrite (List.filter_ext _ _ high_confidence_claimed refs).
    destruct refs as [|ref refs]; [simpl; lia|].
    intros _ H0 H100. split; [reflexivity|]. split; assumption.
  - apply Nat.ltb_ge in Hpos.
    exists 0%Q. split; [reflexivity|]. split; [split; discriminate|].
    unfold Progress.totalSources in Hpos.
    destruct (Progress.references r) as [[|ref refs]|]; simpl in *; try reflexivity. lia.
Qed.

(** The percentage shown for the two examples. *)
Example progressPercentage_examples :
  Progress.progressPercentage seven_of_25
    = Double.Finite (Double.round (Double.round (7 / 25) * 100)) /\
  Progress.progressPercentage {| Progress.references := None |} = Double.Finite 0.
Proof. split; reflexivity. Qed.

(** ** Batch aggregation *)

Lemma bucket_counts (members : list BatchCoordinator.member) :
  Forall (fun m => BatchCoordinator.terminal (BatchCoordinator.status m) = true) members ->
  (length (List.filter BatchCoordinator.is_completed members)
   + length (List.filter BatchCoordinator.is_failed members)
   + length (List.filter BatchCoordinator.is_cancelled members)
   = length members)%nat.
Proof.
  induction 1 as [|m members Hm _ IH]; [reflexivity|].
  unfold BatchCoordinator.is_completed, BatchCoordinator.is_failed,
    BatchCoordinator.is_cancelled in *.
  simpl. destruct (BatchCoordinator.status m); simpl in *; try discriminate; lia.
Qed.

(** C3: once every member of a batch is terminal, the aggregate result
    counts each member in exactly one of the three buckets:
    completed_count + failed_count + cancelled_count = N. *)
Theorem aggregate_counts_sum (members : list BatchCoordinator.member) :
  Forall (fun m => BatchCoordinator.terminal (BatchCoordinator.status m) = true) members ->
  (BatchCoordinator.completed_count (BatchCoordinator.aggregate members)
   + BatchCoordinator.failed_count (BatchCoordinator.aggregate members)
   + BatchCoordinator.cancelled_count (BatchCoordinator.aggregate members)
   = length members)%nat /\
  BatchCoordinator.total (BatchCoordinator.aggregate members) = length members /\
  BatchCoordinator.batch_completed (BatchCoordinator.aggregate members) = true.
Proof.
  intros H. split; [|split].
  - apply bucket_counts. exact H.
  - reflexivity.
  - simpl. apply forallb_forall. intros m Hin.
    rewrite List.Forall_forall in H. apply H. exact Hin.
Qed.

Lemma aggregate_counts_sum_witness :
  (BatchCoordinator.completed_count (BatchCoordinator.aggregate two_topics)
   + BatchCoordinator.failed_count (BatchCoordinator.aggregate two_topics)
   + BatchCoordinator.cancelled_count (BatchCoordinator.aggregate two_topics)
   = length two_topics)%nat /\
  BatchCoordinator.total (BatchCoordinator.aggregate two_topics) = length two_topics /\
  BatchCoordinator.batch_completed (BatchCoordinator.aggregate two_topics) = true.
Proof.
  apply (aggregate_counts_sum two_topics).
  repeat constructor.
Defined.

(** Before all members are terminal the three buckets cover only part of
    the batch. *)
Lemma aggregate_counts_partial (members : list BatchCoordinator.member) :
  (BatchCoordinator.completed_count (BatchCoordinator.aggregate members)
   + BatchCoordinator.failed_count (BatchCoordinator.aggregate members)
   + BatchCoordinator.cancelled_count (BatchCoordinator.aggregate members)
   <= length members)%nat.
Proof.
  simpl. induction members as [|m members IH]; [reflexivity|].
  unfold BatchCoordinator.is_completed, BatchCoordinator.is_failed,
    BatchCoordinator.is_cancelled in *.
  simpl. destruct (BatchCoordinator.status m); simpl in *; lia.
Qed.

(** ** Batch polling *)

Section CallOrder.

Import BatchForm.

Lemma snoc_split {A} (l l1 l2 : list A) (x y : A) :
  (l ++ [x] = l1 ++ y :: l2)%list ->
  (l2 = [] /\ x = y /\ l = l1) \/
  (exists l2', l2 = (l2' ++ [x])%list /\ l = (l1 ++ y :: l2')%list).
Proof.
  destruct l2 as [|z l2 _] using rev_ind; intros H.
  - left. apply app_inj_tail in H. tauto.
  - right. exists l2.
    change ((l ++ [x] = l1 ++ (y :: l2) ++ [z])%list) in H.
    rewrite app_assoc in H. apply app_inj_tail in H.
    destruct H as [-> ->]. auto.
Qed.

Lemma follow_nil : results_follow_completed [].
Proof. intros [|? ?] b l2 H; discriminate H. Qed.

Lemma follow_snoc (l : list call) (c : call) :
  results_follow_completed l -> (forall b, c <> CallResults b) ->
  results_follow_completed (l ++ [c])%list.
Proof.
  intros Hl Hc l1 b l2 H.
  apply snoc_split in H as [(_ & E & _)|(l2' & _ & E)].
  - destruct (Hc b E).
  - exact (Hl _ _ _ E).
Qed.

Lemma follow_completed (l : list call) (b : string) :
  results_follow_completed l ->
  results_follow_completed ((l ++ [StatusReturned b "completed"]) ++ [CallResults b])%list.
Proof.
  intros Hl l1 b' l2 H.
  apply snoc_split in H as [(_ & E & <-)|(l2' & _ & E)].
  - injection E as <-. eauto.
  - assert (Hs : results_follow_completed (l ++ [StatusReturned b "completed"])%list)
      by (apply follow_snoc; [exact Hl | discriminate]).
    exact (Hs _ _ _ E).
Qed.

Lemma start_poll_follow (b : string) (st : state) :
  results_follow_completed (log st) -> results_follow_completed (log (start_poll b st)).
Proof. intros Hl. apply follow_snoc; [exact Hl | discriminate]. Qed.

Lemma status_resolved_follow (b : string) (status : BatchStatus) (st : state) :
  results_follow_completed (log st) ->
  results_follow_completed (log (status_resolved b status st)).
Proof.
  intros Hl. unfold status_resolved.
  destruct (String.eqb (bs_status status) "completed") eqn:E; simpl.
  - apply String.eqb_eq in E. rewrite E. apply follow_completed. exact Hl.
  - apply follow_snoc; [exact Hl | discriminate].
Qed.

Lemma rerender_follow (before after : state) :
  results_follow_completed (log after) ->
  results_follow_completed (log (rerender before after)).
Proof.
  intros Hl. unfold rerender, run_effect.
  repeat case_match; try exact Hl. apply start_poll_follow. exact Hl.
Qed.

Lemma step_follow (st st' : state) (e : event) :
  step st e = Some st' ->
  results_follow_completed (log st) -> results_follow_completed (log st').
Proof.
  intros Hstep Hl.
  destruct e; simpl in Hstep.
  - injection Hstep as <-. exact Hl.
  - destruct (List.filter nonblank (topics st)); injection Hstep as <-; [exact Hl|].
    apply follow_snoc; [exact Hl | discriminate].
  - destruct (pending_submit st !! k); [|discriminate].
    injection Hstep as <-. apply rerender_follow. destruct r; exact Hl.
  - destruct (interval st); [|discriminate].
    destruct (batchId st); [|discriminate].
    injection Hstep as <-. apply start_poll_follow. exact Hl.
  - destruct (pending_status st !! k) as [b|]; [|discriminate].
    destruct r as [status|x]; injection Hstep as <-; [|exact Hl].
    apply status_resolved_follow. exact Hl.
  - destruct (pending_results st !! k); [|discriminate].
    destruct r; injection Hstep as <-; exact Hl.
  - injection Hstep as <-. apply rerender_follow. exact Hl.
  - injection Hstep as <-. exact Hl.
Qed.

Lemma run_follow (evs : list event) (st st' : state) :
  run st evs = Some st' ->
  results_follow_completed (log st) -> results_follow_completed (log st').
Proof.
  revert st. induction evs as [|e evs IH]; intros st Hrun Hl; simpl in Hrun.
  - injection Hrun as <-. exact Hl.
  - destruct (step st e) as [st1|] eqn:Hstep; [|discriminate].
    apply (IH st1 Hrun). exact (step_follow _ _ _ Hstep Hl).
Qed.

Lemma rerender_no_fetch (before after : state) :
  pending_results (rerender before after) = pending_results after /\
  exists l, log (rerender before after) = (log after ++ l)%list /\
            forall b, ~ In (CallResults b) l.
Proof.
  unfold rerender, run_effect.
  repeat case_match; simpl; (split; [reflexivity|]);
    first [ exists []; rewrite app_nil_r; split; [reflexivity | intros ? []]
          | eexists; split; [reflexivity | intros ? [Hin|[]]; discriminate Hin] ].
Qed.

Lemma step_no_fetch (st st' : state) (e : event) :
  step st e = Some st' ->
  (forall k status, e = StatusSettled k (Api.Resolved status) ->
                    bs_status status <> "completed") ->
  (exists l, log st' = (log st ++ l)%list /\ forall b, ~ In (CallResults b) l) /\
  (forall k b, pending_results st' !! k = Some b -> pending_results st !! k = Some b).
Proof.
  intros Hstep Hnot.
  assert (Hnil : exists l, log st = (log st ++ l)%list /\ forall b, ~ In (CallResults b) l).
  { exists []. rewrite app_nil_r. split; [reflexivity | intros ? []]. }
  destruct e; simpl in Hstep.
  - injection Hstep as <-. split; [exact Hnil | auto].
  - destruct (List.filter nonblank (topics st)); injection Hstep as <-;
      (split; [|auto]); [exact Hnil|].
    eexists. split; [reflexivity|]. intros b [H|[]]. discriminate H.
  - destruct (pending_submit st !! k); [|discriminate].
    injection Hstep as <-.
    match goal with |- context [rerender ?x ?y] =>
      destruct (rerender_no_fetch x y) as (Hp & l & Hl & Hno) end.
    rewrite Hp, Hl. split.
    + exists l. split; [|exact Hno]. destruct r; reflexivity.
    + destruct r; auto.
  - destruct (interval st); [|discriminate].
    destruct (batchId st); [|discriminate].
    injection Hstep as <-. split; [|auto].
    eexists. split; [reflexivity|]. intros b [H|[]]. discriminate H.
  - destruct (pending_status st !! k) as [b|]; [|discriminate].
    destruct r as [status|x]; injection Hstep as <-; [|split; [exact Hnil | auto]].
    unfold status_resolved.
    destruct (String.eqb (bs_status status) "completed") eqn:E.
    + apply String.eqb_eq in E. destruct (Hnot k status eq_refl E).
    + split; [|auto]. eexists. split; [reflexivity|].
      intros b' [H|[]]. discriminate H.
  - destruct (pending_results st !! k) eqn:Hk; [|discriminate].
    assert (Hdel : forall k' b, delete k (pending_results st) !! k' = Some b ->
                                pending_results st !! k' = Some b).
    { intros k' b. rewrite lookup_delete_Some. tauto. }
    destruct r; injection Hstep as <-; (split; [exact Hnil | exact Hdel]).
  - injection Hstep as <-.
    match goal with |- context [rerender ?x ?y] =>
      destruct (rerender_no_fetch x y) as (Hp & l & Hl & Hno) end.
    rewrite Hp, Hl. split; [|auto]. exists l. split; [reflexivity | exact Hno].
  - injection Hstep as <-. split; [exact Hnil | auto].
Qed.

End CallOrder.

(** C5: in every run of the batch form, every call of
    [getBatchResearchResults] for a batch comes right after a
    [getBatchResearchStatus] answer for that batch with status
    ["completed"]; and no event other than such an answer (a status answer
    with another status among them) issues a results request: it adds no
    such call to the log and no request to those awaited. *)
Theorem results_fetched_only_after_completed
    (evs : list BatchForm.event) (st : BatchForm.state) :
  BatchForm.run BatchForm.init evs = Some st ->
  (forall l1 b l2,
     BatchForm.log st = (l1 ++ BatchForm.CallResults b :: l2)%list ->
     exists l0, l1 = (l0 ++ [BatchForm.StatusReturned b "completed"])%list) /\
  (forall e st',
     BatchForm.step st e = Some st' ->
     (forall k status, e = BatchForm.StatusSettled k (Api.Resolved status) ->
                       BatchForm.bs_status status <> "completed") ->
     (exists l, BatchForm.log st' = (BatchForm.log st ++ l)%list /\
                forall b, ~ In (BatchForm.CallResults b) l) /\
     (forall k b, BatchForm.pending_results st' !! k = Some b ->
                  BatchForm.pending_results st !! k = Some b)).
Proof.
  intros Hrun. split.
  - exact (run_follow evs _ _ Hrun follow_nil).
  - intros e st'. apply step_no_fetch.
Qed.

Lemma results_fetched_only_after_completed_witness :
  In (BatchForm.CallResults "b1") (BatchForm.log batch_final) /\
  (forall l1 b l2,
     BatchForm.log batch_final = (l1 ++ BatchForm.CallResults b :: l2)%list ->
     exists l0, l1 = (l0 ++ [BatchForm.StatusReturned b "completed"])%list).
Proof.
  split; [vm_compute; tauto|].
  apply (results_fetched_only_after_completed batch_events batch_final).
  vm_compute. reflexivity.
Defined.

(** ** The live session *)

Section Live.

Import LiveSession.

Lemma sendMessage_messages (now : string) (st st' : state) :
  sendMessage now st = Some st' ->
  messages st' = messages st \/
  messages st' = (messages st ++ [user_entry (currentMessage st) now])%list.
Proof.
  unfold sendMessage. intros H.
  repeat case_match; simplify_eq; simpl; auto.
Qed.

(** What an event does to the message list. *)
Lemma step_messages (st st' : state) (e : event) :
  step st e = Some st' ->
  match e with
  | WsFrame _ (Some data) now =>
      messages st' = (messages st ++ [received_entry data now])%list
  | SendMessage now =>
      messages st' = messages st \/
      messages st' = (messages st ++ [user_entry (currentMessage st) now])%list
  | _ => messages st' = messages st
  end.
Proof.
  intros Hstep. destruct e; simpl in Hstep;
    try (apply sendMessage_messages; exact Hstep);
    unfold end_resolved, start_resolved, start_threw in Hstep;
    repeat case_match; simplify_eq; simpl; auto.
Qed.

Lemma step_messages_grow (st st' : state) (e : event) :
  step st e = Some st' ->
  exists new, messages st' = (messages st ++ new)%list /\ (length new <= 1)%nat.
Proof.
  intros Hstep. apply step_messages in Hstep.
  destruct e as [| | | | |ws [data|] now| | |now| | | |];
    try (exists []; rewrite app_nil_r; split; [exact Hstep | simpl; lia]).
  - eexists. split; [exact Hstep | simpl; lia].
  - destruct Hstep as [H|H].
    + exists []. rewrite app_nil_r. split; [exact H | simpl; lia].
    + eexists. split; [exact H | simpl; lia].
Qed.

Lemma run_messages_grow (evs : list event) (st st' : state) :
  run st evs = Some st' ->
  exists later, messages st' = (messages st ++ later)%list /\
                (length later <= length evs)%nat.
Proof.
  revert st. induction evs as [|e evs IH]; intros st Hrun; simpl in Hrun.
  - injection Hrun as <-. exists []. rewrite app_nil_r. auto.
  - destruct (step st e) as [st1|] eqn:Hstep; [|discriminate].
    destruct (step_messages_grow _ _ _ Hstep) as (new & E1 & L1).
    destruct (IH _ Hrun) as (later & E2 & L2).
    exists (new ++ later)%list. split.
    + rewrite E2, E1, app_assoc. reflexivity.
    + rewrite length_app. simpl. lia.
Qed.

End Live.

(** C4: every event leaves the message list as it is or appends exactly one
    entry at its end (the frame received, stamped, or the user's message),
    and whatever happens afterwards, in any interleaving, the list of that
    moment stays an unchanged prefix of the later list. *)
Theorem messages_append_only
    (st st1 st2 : LiveSession.state) (e : LiveSession.event)
    (evs : list LiveSession.event) :
  LiveSession.step st e = Some st1 ->
  LiveSession.run st1 evs = Some st2 ->
  match e with
  | LiveSession.WsFrame _ (Some data) now =>
      LiveSession.messages st1 =
        (LiveSession.messages st ++ [LiveSession.received_entry data now])%list
  | LiveSession.SendMessage now =>
      LiveSession.messages st1 = LiveSession.messages st \/
      LiveSession.messages st1 =
        (LiveSession.messages st
         ++ [LiveSession.user_entry (LiveSession.currentMessage st) now])%list
  | _ => LiveSession.messages st1 = LiveSession.messages st
  end /\
  exists later,
    LiveSession.messages st2 = (LiveSession.messages st1 ++ later)%list /\
    (length later <= length evs)%nat.
Proof.
  intros Hstep Hrun. split.
  - exact (step_messages _ _ _ Hstep).
  - exact (run_messages_grow _ _ _ Hrun).
Qed.

Lemma messages_append_only_witness :
  LiveSession.messages live_sent =
    (LiveSession.messages live_open
     ++ [LiveSession.user_entry (LiveSession.currentMessage live_open) "12:00:01"])%list /\
  exists later,
    LiveSession.messages live_replied = (LiveSession.messages live_sent ++ later)%list /\
    (length later <= 1)%nat.
Proof.
  destruct (messages_append_only live_open live_sent live_replied
              (LiveSession.SendMessage "12:00:01")
              [LiveSession.WsFrame 1 (Some assistant_frame) "12:00:05"]) as [[H|H] Hlater].
  - vm_compute. reflexivity.
  - vm_compute. reflexivity.
  - vm_compute in H. discriminate H.
  - split; [exact H | exact Hlater].
Defined.

Section Ending.

Import LiveSession.

Lemma end_resolved_spec (finalSummary : LiveResearchSummary) (st : state) :
  summary (end_resolved finalSummary st) = Some finalSummary /\
  session (end_resolved finalSummary st) = None /\
  wsRef (end_resolved finalSummary st) = None /\
  close_calls (end_resolved finalSummary st) =
    (close_calls st ++ option_list (wsRef st))%list.
Proof.
  unfold end_resolved. cbn.
  destruct (wsRef st) eqn:E; cbn; rewrite ?E, ?app_nil_r; repeat split; reflexivity.
Qed.

(** Only the resolved end request clears the session or the socket
    reference, or closes a socket. *)
Lemma step_keeps_session (st st' : state) (e : event) :
  step st e = Some st' ->
  (forall k s, e <> EndSettled k (Api.Resolved s)) ->
  (session st' = None -> session st = None) /\
  (wsRef st' = None -> wsRef st = None) /\
  close_calls st' = close_calls st.
Proof.
  intros Hstep Hne.
  destruct e; simpl in Hstep; unfold sendMessage, start_resolved, start_threw in Hstep;
    repeat case_match; simplify_eq; simpl;
    try solve [repeat split; solve [auto | discriminate | congruence]].
  destruct (Hne _ _ eq_refl).
Qed.

End Ending.

(** C10: when the [endLiveResearchSession] request rejects, the session,
    the socket reference, the sockets and the summary are what they were;
    the session is cleared, the reference dropped or a socket closed by the
    component only by the event in which the request resolves with a
    summary, which that same event stores. *)
Theorem end_session_atomic
    (st st' : LiveSession.state) (e : LiveSession.event) :
  LiveSession.step st e = Some st' ->
  (forall k x, e = LiveSession.EndSettled k (Api.Rejected x) ->
     LiveSession.session st' = LiveSession.session st /\
     LiveSession.wsRef st' = LiveSession.wsRef st /\
     LiveSession.sockets st' = LiveSession.sockets st /\
     LiveSession.close_calls st' = LiveSession.close_calls st /\
     LiveSession.summary st' = LiveSession.summary st) /\
  (forall k s, e = LiveSession.EndSettled k (Api.Resolved s) ->
     LiveSession.summary st' = Some s /\
     LiveSession.session st' = None /\
     LiveSession.wsRef st' = None /\
     LiveSession.close_calls st' =
       (LiveSession.close_calls st ++ option_list (LiveSession.wsRef st))%list) /\
  ((LiveSession.session st <> None /\ LiveSession.session st' = None) \/
   (LiveSession.wsRef st <> None /\ LiveSession.wsRef st' = None) \/
   LiveSession.close_calls st' <> LiveSession.close_calls st ->
   exists k s, e = LiveSession.EndSettled k (Api.Resolved s) /\
               LiveSession.summary st' = Some s).
Proof.
  intros Hstep. split; [|split].
  - intros k x ->. simpl in Hstep.
    destruct (LiveSession.pending_end st !! k); [|discriminate].
    injection Hstep as <-. simpl. auto.
  - intros k s ->. simpl in Hstep.
    destruct (LiveSession.pending_end st !! k); [|discriminate].
    injection Hstep as <-.
    match goal with |- context [LiveSession.end_resolved ?s ?x] =>
      destruct (end_resolved_spec s x) as (H1 & H2 & H3 & H4) end.
    simpl in H4. auto.
  - intros Hchanged.
    assert (Hend : (exists k s, e = LiveSession.EndSettled k (Api.Resolved s)) \/
                   (forall k s, e <> LiveSession.EndSettled k (Api.Resolved s))).
    { destruct e as [| | | | | | | | | |k [s|x]| |]; try (right; discriminate).
      left. eauto. }
    destruct Hend as [(k & s & ->)|Hne].
    + exists k, s. split; [reflexivity|]. simpl in Hstep.
      destruct (LiveSession.pending_end st !! k); [|discriminate].
      injection Hstep as <-. apply end_resolved_spec.
    + destruct (step_keeps_session _ _ _ Hstep Hne) as (Hs & Hw & Hc).
      destruct Hchanged as [[H1 H2]|[[H1 H2]|H]]; [tauto | tauto | congruence].
Qed.

Lemma end_session_atomic_witness :
  LiveSession.session live_end_failed = LiveSession.session live_ending /\
  LiveSession.wsRef live_end_failed = LiveSession.wsRef live_ending /\
  LiveSession.sockets live_end_failed = LiveSession.sockets live_ending /\
  LiveSession.close_calls live_end_failed = LiveSession.close_calls live_ending /\
  LiveSession.summary live_end_failed = LiveSession.summary live_ending.
Proof.
  apply (end_session_atomic live_ending live_end_failed
           (LiveSession.EndSettled 2 (Api.Rejected Api.ENetwork))
           ltac:(vm_compute; reflexivity))
    with (k := 2%nat) (x := Api.ENetwork).
  reflexivity.
Defined.

(** ** The status polling effect *)

Section Polling.

Import Types StatusDisplay.

Variable jobId : string.

Lemma JobStatus_eqb_eq (a b : JobStatus) : JobStatus_eqb a b = true <-> a = b.
Proof. destruct a, b; simpl; split; congruence. Qed.

(** The effect sets no interval on a terminal status. *)
Lemma run_effect_terminal (st : state) :
  terminal (status (run_effect st)) = true -> interval (run_effect st) = None.
Proof.
  unfold run_effect. destruct (terminal (status st)) eqn:E; simpl; [reflexivity|].
  congruence.
Qed.

(** One statement of the callback leaves the interval or clears it. *)
Lemma perform_interval (a : action) (st : state) :
  interval (perform st a) = interval st \/ interval (perform st a) = None.
Proof.
  destruct a; simpl; auto.
  destruct (interval st) as [live|] eqn:E; [|auto].
  destruct (Nat.eqb live id); simpl; auto.
Qed.

Lemma callback_interval (acts : list action) (st : state) :
  interval (fold_left perform acts st) = interval st \/
  interval (fold_left perform acts st) = None.
Proof.
  revert st. induction acts as [|a acts IH]; intros st; simpl; [auto|].
  destruct (IH (perform st a)) as [H|H]; [|auto].
  rewrite H. apply perform_interval.
Qed.

(** While a terminal status is displayed no interval is live. *)
Lemma step_terminal_no_interval (st st' : state) (e : event) :
  step jobId st e = Some st' ->
  (terminal (status st) = true -> interval st = None) ->
  terminal (status st') = true -> interval st' = None.
Proof.
  intros Hstep Hinv Hterm. destruct e as [|k r]; simpl in Hstep.
  - destruct (interval st) as [id|] eqn:Hi; [|discriminate]. injection Hstep as <-.
    simpl in Hterm. apply Hinv in Hterm. discriminate Hterm.
  - destruct (pending st !! k) as [c|]; [|discriminate].
    injection Hstep as <-. revert Hterm. unfold rerender.
    match goal with |- context [fold_left perform ?acts ?s0] =>
      set (st1 := fold_left perform acts s0);
      pose proof (callback_interval acts s0) as Hi; fold st1 in Hi
    end.
    destruct (JobStatus_eqb (status st) (status st1) &&
              Qeq_bool (progress st) (progress st1)) eqn:E.
    + apply andb_true_iff in E as [E _]. apply JobStatus_eqb_eq in E.
      intros Hterm. rewrite <- E in Hterm.
      destruct Hi as [Hi|Hi]; rewrite Hi; simpl; auto.
    + apply run_effect_terminal.
Qed.

Lemma mount_terminal_no_interval (s : JobStatus) (p : Q) :
  terminal (status (mount s p)) = true -> interval (mount s p) = None.
Proof. apply run_effect_terminal. Qed.

Lemma run_terminal_no_interval (evs : list event) (st st' : state) :
  run jobId st evs = Some st' ->
  (terminal (status st) = true -> interval st = None) ->
  terminal (status st') = true -> interval st' = None.
Proof.
  revert st. induction evs as [|e evs IH]; intros st Hrun Hinv; simpl in Hrun.
  - injection Hrun as <-. exact Hinv.
  - destruct (step jobId st e) as [st1|] eqn:Hstep; [|discriminate].
    apply (IH st1 Hrun). exact (step_terminal_no_interval _ _ _ Hstep Hinv).
Qed.

(** No poll starts while a terminal status is displayed. *)
Lemma terminal_schedules_no_poll (s : JobStatus) (p : Q) (evs : list event) (st : state) :
  run jobId (mount s p) evs = Some st ->
  terminal (status st) = true -> step jobId st Tick = None.
Proof.
  intros Hrun Hterm. simpl.
  rewrite (run_terminal_no_interval evs _ _ Hrun (mount_terminal_no_interval s p) Hterm).
  reflexivity.
Qed.


(** With no request in flight a terminal status is final: nothing can
    happen to the component any more. *)
Lemma terminal_final_when_idle (s : JobStatus) (p : Q) (evs : list event)
    (st : state) (e : event) :
  run jobId (mount s p) evs = Some st ->
  terminal (status st) = true -> pending st = ∅ ->
  step jobId st e = None.
Proof.
  intros Hrun Hterm Hidle. destruct e as [|k r].
  - exact (terminal_schedules_no_poll s p evs st Hrun Hterm).
  - simpl. rewrite Hidle, lookup_empty. reflexivity.
Qed.

End Polling.

(** The component on its own does not keep a terminal status: when two
    polls of one interval overlap and the later one is answered first, with
    [completed], the earlier answer [in_progress] is applied to a component
    that is still mounted, and polling starts again.  On the job page the
    card is unmounted by then. *)
Example stale_poll_overwrites_terminal :
  StatusDisplay.run "job-1" (StatusDisplay.mount Types.queued 0)
    [ StatusDisplay.Tick; StatusDisplay.Tick;
      StatusDisplay.Settle 1 (poll_answer Types.completed) ] = Some poll_completed /\
  StatusDisplay.status poll_completed = Types.completed /\
  StatusDisplay.interval poll_completed = None /\
  StatusDisplay.callbacks poll_completed = [StatusDisplay.OnJobCompletion "job-1"] /\
  StatusDisplay.step "job-1" poll_completed
    (StatusDisplay.Settle 0 (poll_answer Types.in_progress)) = Some poll_overwritten /\
  StatusDisplay.status poll_overwritten = Types.in_progress /\
  StatusDisplay.interval poll_overwritten = Some 1%nat.
Proof.
  split; [vm_compute; reflexivity|].
  split; [vm_compute; reflexivity|].
  split; [vm_compute; reflexivity|].
  split; [vm_compute; reflexivity|].
  split; [vm_compute; reflexivity|].
  split; vm_compute; reflexivity.
Qed.

(** * Further properties of the client *)

(** ** [handleApiResponse]: the error it throws *)





(** ** [createLiveResearchWebSocket]: the socket URL *)

(** For a base URL that starts with [http] the socket URL is the base with
    that first [http] replaced by [ws] ([http://] becomes [ws://],
    [https://] becomes [wss://]), the rest of the base untouched, followed
    by [/live-research/<session>/ws]. *)
Theorem wsUrl_scheme (rest sessionId : string) :
  LiveSocket.wsUrl ("http" +:+ rest) sessionId =
    "ws" +:+ rest +:+ "/live-research/" +:+ sessionId +:+ "/ws" /\
  LiveSocket.wsUrl ("https://" +:+ rest) sessionId =
    "wss://" +:+ rest +:+ "/live-research/" +:+ sessionId +:+ "/ws".
Proof. split; destruct rest; reflexivity. Qed.

(** ** [StatusDisplay]: what a poll does *)

Section PollEffects.

Import Types StatusDisplay.

Variable jobId : string.

Lemma rerender_fields (before after : state) :
  status (rerender before after) = status after /\
  progress (rerender before after) = progress after /\
  error (rerender before after) = error after /\
  callbacks (rerender before after) = callbacks after /\
  pending (rerender before after) = pending after.
Proof.
  unfold rerender, run_effect.
  destruct (_ && _); [auto|]. destruct (terminal (status after)); simpl; auto.
Qed.

Lemma failureMsg_not_empty (r : JobStatusResponse) : failureMsg jobId r <> "".
Proof.
  unfold failureMsg. destruct (jsr_error_message r) as [m|]; [|discriminate].
  destruct (String.eqb m "") eqn:E; [discriminate|].
  intros ->. discriminate E.
Qed.

(** The status a settled poll leaves, and the interval when that status is
    not terminal. *)
Lemma settled_status (c : closure) (r : JobStatusResponse) (st : state) :
  status (fold_left perform (on_settled jobId c (PollOk r)) st) = jsr_status r /\
  (terminal (jsr_status r) = false ->
   interval (fold_left perform (on_settled jobId c (PollOk r)) st) = interval st).
Proof.
  unfold on_settled.
  destruct (jsr_status r); simpl;
    (split; [|intros H; try discriminate H; reflexivity]);
    try reflexivity;
    (destruct (interval st) as [live|]; [destruct (Nat.eqb live (cl_interval c))|]);
    reflexivity.
Qed.

Lemma rejected_fields (c : closure) (msg : option string) (st : state) :
  status (fold_left perform (on_settled jobId c (PollErr msg)) st) = status st /\
  progress (fold_left perform (on_settled jobId c (PollErr msg)) st) = progress st /\
  interval (fold_left perform (on_settled jobId c (PollErr msg)) st) = interval st.
Proof. simpl. auto. Qed.

(** Polling is live exactly while the status shown is not terminal. *)
Lemma step_polling_iff (st st' : state) (e : event) :
  step jobId st e = Some st' ->
  (interval st = None <-> terminal (status st) = true) ->
  (interval st' = None <-> terminal (status st') = true).
Proof.
  intros Hstep Hinv. destruct e as [|k r]; simpl in Hstep.
  - destruct (interval st) as [id|] eqn:Hid; [|discriminate].
    injection Hstep as <-. simpl. rewrite Hid. exact Hinv.
  - destruct (pending st !! k) as [c|]; [|discriminate].
    injection Hstep as <-. unfold rerender.
    match goal with |- context [fold_left perform ?acts ?s0] =>
      set (st1 := fold_left perform acts s0);
      pose proof (callback_interval acts s0) as Hi; fold st1 in Hi
    end.
    destruct (JobStatus_eqb (status st) (status st1) &&
              Qeq_bool (progress st) (progress st1)) eqn:E.
    + apply andb_true_iff in E as [E _]. apply JobStatus_eqb_eq in E.
      rewrite <- E. split.
      * intros Hnone. destruct (terminal (status st)) eqn:Ht; [reflexivity|].
        exfalso. destruct r as [r|msg].
        -- destruct (settled_status c r
                       (set_pending (delete k (pending st)) (next_poll st) st))
             as [Hs Hkeep].
           fold st1 in Hs, Hkeep. rewrite <- Hs, <- E in Hkeep.
           rewrite (Hkeep Ht) in Hnone. simpl in Hnone.
           apply Hinv in Hnone. congruence.
        -- destruct (rejected_fields c msg
                       (set_pending (delete k (pending st)) (next_poll st) st))
             as (_ & _ & Hkeep).
           fold st1 in Hkeep. rewrite Hkeep in Hnone. simpl in Hnone.
           apply Hinv in Hnone. congruence.
      * intros Ht. apply Hinv in Ht.
        destruct Hi as [Hi|Hi]; rewrite Hi; [exact Ht | reflexivity].
    + unfold run_effect. destruct (terminal (status st1)) eqn:Ht; simpl.
      * rewrite Ht. tauto.
      * rewrite Ht. split; discriminate.
Qed.

End PollEffects.

(** From the first render on and whatever the polls answer, in any order,
    the interval is live exactly while the status shown is [queued] or
    [in_progress]: a terminal status leaves no interval, any other status
    keeps one. *)
Theorem polling_iff_not_terminal
    (jobId : string) (s : Types.JobStatus) (p : Q)
    (evs : list StatusDisplay.event) (st : StatusDisplay.state) :
  StatusDisplay.run jobId (StatusDisplay.mount s p) evs = Some st ->
  (StatusDisplay.interval st = None <->
   StatusDisplay.terminal (StatusDisplay.status st) = true).
Proof.
  assert (Hmount : StatusDisplay.interval (StatusDisplay.mount s p) = None <->
                   StatusDisplay.terminal
                     (StatusDisplay.status (StatusDisplay.mount s p)) = true).
  { unfold StatusDisplay.mount, StatusDisplay.run_effect. simpl.
    destruct (StatusDisplay.terminal s) eqn:Ht; simpl; rewrite Ht;
      split; auto; discriminate. }
  revert Hmount. generalize (StatusDisplay.mount s p).
  induction evs as [|e evs IH]; intros st0 Hinv Hrun; simpl in Hrun.
  - injection Hrun as <-. exact Hinv.
  - destruct (StatusDisplay.step jobId st0 e) as [st1|] eqn:Hstep; [|discriminate].
    apply (IH st1); [|exact Hrun].
    exact (step_polling_iff jobId _ _ _ Hstep Hinv).
Qed.

Lemma polling_iff_not_terminal_witness :
  StatusDisplay.interval poll_done = None <->
  StatusDisplay.terminal (StatusDisplay.status poll_done) = true.
Proof.
  apply (polling_iff_not_terminal "job-1" Types.queued 0
           [ StatusDisplay.Tick; StatusDisplay.Settle 0 (poll_answer Types.completed) ]).
  vm_compute. reflexivity.
Defined.

Lemma terminal_final_when_idle_witness :
  StatusDisplay.step "job-1" poll_done StatusDisplay.Tick = None.
Proof.
  apply (terminal_final_when_idle "job-1" Types.queued 0
           [ StatusDisplay.Tick; StatusDisplay.Settle 0 (poll_answer Types.completed) ]).
  - vm_compute. reflexivity.
  - vm_compute. reflexivity.
  - vm_compute. reflexivity.
Defined.

(** A poll answered with [failed] shows that status and an error message
    that is never empty (the job's [error_message], or the default text when
    that is missing or empty), and hands the same message to
    [onJobFailure]. *)
Theorem poll_failed_shows_error
    (jobId : string) (st st' : StatusDisplay.state) (k : nat)
    (r : Types.JobStatusResponse) :
  StatusDisplay.step jobId st (StatusDisplay.Settle k (StatusDisplay.PollOk r)) = Some st' ->
  Types.jsr_status r = Types.failed ->
  exists msg,
    msg <> "" /\
    (Types.jsr_error_message r = Some msg \/
     msg = "Job " +:+ jobId +:+ " failed with an unknown error.") /\
    StatusDisplay.status st' = Types.failed /\
    StatusDisplay.error st' = Some msg /\
    StatusDisplay.callbacks st' =
      (StatusDisplay.callbacks st ++ [StatusDisplay.OnJobFailure jobId msg])%list.
Proof.
  intros Hstep Hfailed. simpl in Hstep.
  destruct (StatusDisplay.pending st !! k) as [c|]; [|discriminate].
  injection Hstep as <-.
  exists (StatusDisplay.failureMsg jobId r).
  split; [apply failureMsg_not_empty|]. split.
  { unfold StatusDisplay.failureMsg.
    destruct (Types.jsr_error_message r) as [m|]; [|auto].
    destruct (String.eqb m ""); auto. }
  match goal with |- context [StatusDisplay.rerender ?a ?b] =>
    destruct (rerender_fields a b) as (Hs & _ & He & Hc & _) end.
  rewrite Hs, He, Hc. unfold StatusDisplay.on_settled. rewrite Hfailed. simpl.
  repeat case_match; simpl; auto.
Qed.

Lemma poll_failed_shows_error_witness :
  exists msg,
    msg <> "" /\
    (Types.jsr_error_message
       {| Types.jsr_job_id := "job-1"; Types.jsr_status := Types.failed;
          Types.jsr_progress := None; Types.jsr_error_message := None |} = Some msg \/
     msg = "Job " +:+ "job-1" +:+ " failed with an unknown error.") /\
    StatusDisplay.status poll_failed = Types.failed /\
    StatusDisplay.error poll_failed = Some msg /\
    StatusDisplay.callbacks poll_failed =
      (StatusDisplay.callbacks poll_polling ++ [StatusDisplay.OnJobFailure "job-1" msg])%list.
Proof.
  apply (poll_failed_shows_error "job-1" poll_polling poll_failed 0).
  - vm_compute. reflexivity.
  - reflexivity.
Defined.

(** A poll whose request fails changes neither the status nor the progress
    shown and does not stop the polling: only the error message is set (the
    error's message, or a default), and no callback is called. *)
Theorem poll_rejected_keeps_polling
    (jobId : string) (st st' : StatusDisplay.state) (k : nat) (msg : option string) :
  StatusDisplay.step jobId st (StatusDisplay.Settle k (StatusDisplay.PollErr msg)) = Some st' ->
  StatusDisplay.status st' = StatusDisplay.status st /\
  StatusDisplay.progress st' = StatusDisplay.progress st /\
  StatusDisplay.interval st' = StatusDisplay.interval st /\
  StatusDisplay.callbacks st' = StatusDisplay.callbacks st /\
  StatusDisplay.error st' =
    Some (match msg with Some m => m | None => "Failed to fetch job status." end).
Proof.
  intros Hstep. simpl in Hstep.
  destruct (StatusDisplay.pending st !! k) as [c|]; [|discriminate].
  injection Hstep as <-. unfold StatusDisplay.rerender. simpl.
  rewrite (proj2 (JobStatus_eqb_eq _ _) eq_refl), Qeq_bool_refl. simpl. auto.
Qed.

Lemma poll_rejected_keeps_polling_witness :
  StatusDisplay.status poll_unreachable = StatusDisplay.status poll_polling /\
  StatusDisplay.progress poll_unreachable = StatusDisplay.progress poll_polling /\
  StatusDisplay.interval poll_unreachable = StatusDisplay.interval poll_polling /\
  StatusDisplay.callbacks poll_unreachable = StatusDisplay.callbacks poll_polling /\
  StatusDisplay.error poll_unreachable = Some "Failed to fetch".
Proof.
  apply (poll_rejected_keeps_polling "job-1" poll_polling poll_unreachable 0
           (Some "Failed to fetch")).
  vm_compute. reflexivity.
Defined.

(** ** [BatchResearchForm]: the topic list and the submit button *)

Section Topics.

Import TopicList.

Lemma filter_index_past (index i : nat) (topics : list string) :
  (index < i)%nat -> filter_index index i topics = topics.
Proof.
  revert i. induction topics as [|t rest IH]; intros i Hlt; simpl; [reflexivity|].
  destruct (Nat.eqb_spec i index) as [->|_]; [lia|].
  rewrite IH by lia. reflexivity.
Qed.

Lemma filter_index_delete (index i : nat) (topics : list string) :
  (i <= index)%nat -> filter_index index i topics = delete (index - i)%nat topics.
Proof.
  revert i. induction topics as [|t rest IH]; intros i Hle; simpl.
  - destruct (index - i)%nat; reflexivity.
  - destruct (Nat.eqb_spec i index) as [->|Hne].
    + rewrite Nat.sub_diag. simpl. apply filter_index_past. lia.
    + replace (index - i)%nat with (S (index - S i)) by lia. simpl.
      rewrite IH by lia. reflexivity.
Qed.

Lemma delete_past_end (i : nat) (topics : list string) :
  (length topics <= i)%nat -> delete i topics = topics.
Proof.
  revert i. induction topics as [|t rest IH]; intros i Hle; [destruct i; reflexivity|].
  destruct i as [|i]; simpl in *; [lia|]. rewrite IH by lia. reflexivity.
Qed.

Lemma removeTopic_as_delete (index : nat) (topics : list string) :
  removeTopic index topics =
    (if (1 <? length topics)%nat then delete index topics else topics).
Proof.
  unfold removeTopic. destruct (1 <? length topics)%nat; [|reflexivity].
  rewrite filter_index_delete by lia. rewrite Nat.sub_0_r. reflexivity.
Qed.

End Topics.

(** [removeTopic] removes exactly the row at [index], by position, when
    more than one row is left; the last row is never removed, and an index
    outside the list removes nothing. *)
Theorem removeTopic_deletes (index : nat) (topics : list string) :
  TopicList.removeTopic index topics =
    (if (1 <? length topics)%nat then delete index topics else topics) /\
  ((length topics <= index)%nat -> TopicList.removeTopic index topics = topics) /\
  ((index < length topics)%nat -> (1 < length topics)%nat ->
   length (TopicList.removeTopic index topics) = (length topics - 1)%nat).
Proof.
  pose proof (removeTopic_as_delete index topics) as E.
  split; [exact E|]. rewrite E. split.
  - intros Hge. destruct (1 <? length topics)%nat; [|reflexivity].
    apply delete_past_end. exact Hge.
  - intros Hlt Hmany. apply Nat.ltb_lt in Hmany. rewrite Hmany.
    apply length_delete. apply lookup_lt_is_Some. exact Hlt.
Qed.

(** However the rows are added, removed and edited, the topic list never
    becomes empty. *)
Theorem topics_never_empty (es : list TopicList.edit) (topics topics' : list string) :
  topics <> [] ->
  TopicList.apply_edits topics es = Some topics' ->
  topics' <> [].
Proof.
  revert topics. induction es as [|e es IH]; intros topics Hne Hrun; simpl in Hrun.
  - injection Hrun as <-. exact Hne.
  - destruct (TopicList.apply_edit topics e) as [topics1|] eqn:He; [|discriminate].
    apply (IH topics1); [|exact Hrun].
    destruct e as [|index|index value]; simpl in He.
    + injection He as <-. unfold TopicList.addTopic. destruct topics; discriminate.
    + injection He as <-.
      rewrite (removeTopic_as_delete index topics).
      destruct (1 <? length topics)%nat eqn:Hmany; [|exact Hne].
      apply Nat.ltb_lt in Hmany.
      destruct (decide (index < length topics)%nat) as [Hin|Hout].
      * intros Hnil. apply (f_equal length) in Hnil.
        rewrite length_delete in Hnil by (apply lookup_lt_is_Some; exact Hin).
        simpl in Hnil. lia.
      * rewrite delete_past_end by lia. exact Hne.
    + unfold TopicList.updateTopic in He.
      destruct (index <? length topics)%nat; [|discriminate].
      injection He as <-. intros Hnil. apply (f_equal length) in Hnil.
      rewrite length_insert in Hnil. destruct topics; [congruence | discriminate].
Qed.

Lemma topics_never_empty_witness :
  TopicList.apply_edits TopicList.initial
    [ TopicList.Remove 0; TopicList.Add; TopicList.Update 1 "b"; TopicList.Remove 0 ]
    = Some ["b"] /\ ["b"] <> @nil string.
Proof.
  split; [reflexivity|].
  apply (topics_never_empty
           [ TopicList.Remove 0; TopicList.Add; TopicList.Update 1 "b"; TopicList.Remove 0 ]
           TopicList.initial).
  - discriminate.
  - reflexivity.
Defined.

(** A click on the submit button never sends a blank topic or an empty
    batch: with only blank rows nothing happens at all; otherwise the one
    request carries exactly the non-blank rows, in their order. *)
Theorem submitBatch_never_blank (st st' : BatchForm.state) :
  BatchForm.step st BatchForm.SubmitBatch = Some st' ->
  let validTopics := List.filter BatchForm.nonblank (BatchForm.topics st) in
  Forall (fun t => BatchForm.nonblank t = true) validTopics /\
  (validTopics = [] -> st' = st) /\
  (validTopics <> [] ->
   BatchForm.log st' = (BatchForm.log st ++ [BatchForm.CallSubmit validTopics])%list /\
   BatchForm.isSubmitting st' = true /\
   BatchForm.pending_submit st' !! BatchForm.next_request st = Some tt).
Proof.
  intros Hstep validTopics. split; [|split].
  - apply List.Forall_forall. intros t Hin. apply List.filter_In in Hin. tauto.
  - intros Hnil. simpl in Hstep. fold validTopics in Hstep. rewrite Hnil in Hstep.
    injection Hstep as <-. reflexivity.
  - intros Hne. simpl in Hstep. fold validTopics in Hstep.
    destruct validTopics as [|t ts]; [congruence|].
    injection Hstep as <-. simpl. rewrite lookup_insert_eq. auto.
Qed.

(** A row of no-break spaces and a line separator is blank, as for
    [trim]. *)
Example unicode_blank_is_blank :
  BatchForm.nonblank unicode_blank = false /\
  BatchForm.nonblank (unicode_blank +:+ "x") = true /\
  BatchForm.step (default BatchForm.init
                    (BatchForm.step BatchForm.init (BatchForm.SetTopics [unicode_blank])))
                 BatchForm.SubmitBatch
  = BatchForm.step BatchForm.init (BatchForm.SetTopics [unicode_blank]).
Proof. repeat split. Qed.

Lemma submitBatch_never_blank_witness :
  BatchForm.log form_submitted =
    [BatchForm.CallSubmit ["graph neural networks"; "protein folding"]].
Proof.
  destruct (submitBatch_never_blank form_filled form_submitted) as (_ & _ & H).
  - vm_compute. reflexivity.
  - destruct H as (Hlog & _ & _); [discriminate|]. exact Hlog.
Defined.

(** The submit button and the guard of [submitBatch] agree: the button is
    disabled for a list of blank rows, for which a click would do nothing;
    when it is enabled a click sends a request with as many topics as the
    button's label counts, at least one. *)
Theorem submit_button_matches_guard (st : BatchForm.state) :
  (TopicList.submitDisabled false (BatchForm.topics st) = true ->
   BatchForm.step st BatchForm.SubmitBatch = Some st) /\
  (TopicList.submitDisabled (BatchForm.isSubmitting st) (BatchForm.topics st) = false ->
   exists submitted st',
     BatchForm.step st BatchForm.SubmitBatch = Some st' /\
     BatchForm.log st' = (BatchForm.log st ++ [BatchForm.CallSubmit submitted])%list /\
     length submitted = TopicList.labelCount (BatchForm.topics st) /\
     (0 < length submitted)%nat).
Proof.
  assert (Hblank : forall ts,
            forallb (fun t => negb (BatchForm.nonblank t)) ts = true <->
            List.filter BatchForm.nonblank ts = []).
  { induction ts as [|t ts IH]; simpl; [tauto|].
    destruct (BatchForm.nonblank t); simpl; [split; discriminate | exact IH]. }
  unfold TopicList.submitDisabled, TopicList.labelCount. split.
  - simpl. intros H. apply Hblank in H. rewrite H. reflexivity.
  - intros H. apply orb_false_iff in H as [_ H].
    destruct (List.filter BatchForm.nonblank (BatchForm.topics st)) as [|t ts] eqn:E.
    + apply Hblank in E. congruence.
    + eexists (t :: ts), _. simpl. rewrite E. simpl.
      split; [reflexivity|]. split; [reflexivity|]. split; [reflexivity | lia].
Qed.

(** ** [BatchResearchForm]: the polling effect *)

Section BatchPolling.

Import BatchForm.

Lemma same_id_eq (a b : option string) : same_id a b = true -> a = b.
Proof.
  destruct a, b; simpl; try discriminate; try reflexivity.
  intros H. apply String.eqb_eq in H. congruence.
Qed.

Lemma run_effect_polling (st : state) : batch_polling_inv (run_effect st).
Proof.
  unfold batch_polling_inv, run_effect.
  destruct (batchId st) as [b|] eqn:Hb; simpl; [|rewrite Hb; tauto].
  destruct (String.eqb b "") eqn:E; simpl; rewrite Hb.
  - apply String.eqb_eq in E. subst b. tauto.
  - split; [discriminate|]. intros [H|H]; [discriminate|].
    injection H as ->. discriminate E.
Qed.

Lemma rerender_polling (before after : state) :
  batch_polling_inv before -> interval after = interval before ->
  batch_polling_inv (rerender before after).
Proof.
  intros Hinv Hi. unfold rerender.
  destruct (same_id (batchId before) (batchId after)) eqn:E;
    [|apply run_effect_polling].
  apply same_id_eq in E. unfold batch_polling_inv in *. rewrite Hi, <- E. exact Hinv.
Qed.

Lemma status_resolved_fields (b : string) (status : BatchStatus) (st : state) :
  interval (status_resolved b status st) = interval st /\
  batchId (status_resolved b status st) = batchId st.
Proof.
  unfold status_resolved. destruct (String.eqb (bs_status status) "completed"); auto.
Qed.

Lemma step_polling (st st' : state) (e : event) :
  step st e = Some st' -> batch_polling_inv st -> batch_polling_inv st'.
Proof.
  intros Hstep Hinv. destruct e; simpl in Hstep.
  - injection Hstep as <-. exact Hinv.
  - destruct (List.filter nonblank (topics st)); injection Hstep as <-; exact Hinv.
  - destruct (pending_submit st !! k); [|discriminate].
    injection Hstep as <-. apply rerender_polling; [exact Hinv|].
    destruct r; reflexivity.
  - destruct (interval st) eqn:Hi; [|discriminate].
    destruct (batchId st) eqn:Hb; [|discriminate].
    injection Hstep as <-. unfold batch_polling_inv in *. simpl.
    rewrite Hi, Hb in *. exact Hinv.
  - destruct (pending_status st !! k) as [b|]; [|discriminate].
    destruct r as [status|x]; injection Hstep as <-; [|exact Hinv].
    unfold batch_polling_inv.
    match goal with |- context [status_resolved ?b ?s ?x] =>
      destruct (status_resolved_fields b s x) as [-> ->] end.
    exact Hinv.
  - destruct (pending_results st !! k); [|discriminate].
    destruct r; injection Hstep as <-; exact Hinv.
  - injection Hstep as <-. apply rerender_polling; [exact Hinv | reflexivity].
  - injection Hstep as <-. exact Hinv.
Qed.

End BatchPolling.

(** In every run of the batch form the polling interval is live exactly
    while a non-empty batch id is set: it starts when the submit request
    returns one, survives every status and results answer (also
    ["completed"]), and ends only with Stop. *)
Theorem batch_polling_iff_batch_id
    (evs : list BatchForm.event) (st : BatchForm.state) :
  BatchForm.run BatchForm.init evs = Some st ->
  (BatchForm.interval st = None <->
   (BatchForm.batchId st = None \/ BatchForm.batchId st = Some "")).
Proof.
  assert (Hinit : batch_polling_inv BatchForm.init) by (unfold batch_polling_inv; simpl; tauto).
  revert Hinit. generalize BatchForm.init.
  induction evs as [|e evs IH]; intros st0 Hinv Hrun; simpl in Hrun.
  - injection Hrun as <-. exact Hinv.
  - destruct (BatchForm.step st0 e) as [st1|] eqn:Hstep; [|discriminate].
    apply (IH st1); [|exact Hrun]. exact (step_polling _ _ _ Hstep Hinv).
Qed.

Lemma batch_polling_iff_batch_id_witness :
  BatchForm.interval batch_final = None <->
  (BatchForm.batchId batch_final = None \/ BatchForm.batchId batch_final = Some "").
Proof.
  apply (batch_polling_iff_batch_id batch_events). vm_compute. reflexivity.
Defined.

Section BatchCounting.

Import BatchForm.

Lemma balanced_app (l entries : list call) :
  log_balanced l -> log_balanced entries -> log_balanced (l ++ entries)%list.
Proof.
  intros Hl He b. rewrite !List.filter_app, !length_app, (Hl b), (He b). reflexivity.
Qed.

Lemma balanced_status_call (b : string) : log_balanced [CallStatus b].
Proof. intros b0. reflexivity. Qed.

Lemma balanced_answer (b s : string) :
  log_balanced (StatusReturned b s ::
                if String.eqb s "completed" then [CallResults b] else []).
Proof.
  intros b0. destruct (String.eqb s "completed") eqn:E; simpl; rewrite E.
  - destruct (String.eqb b b0); reflexivity.
  - rewrite andb_false_r. reflexivity.
Qed.

Lemma start_poll_balanced (b : string) (st : state) :
  log_balanced (log st) -> log_balanced (log (start_poll b st)).
Proof. intros Hl. simpl. apply balanced_app; [exact Hl | apply balanced_status_call]. Qed.

Lemma status_resolved_balanced (b : string) (status : BatchStatus) (st : state) :
  log_balanced (log st) -> log_balanced (log (status_resolved b status st)).
Proof.
  intros Hl. pose proof (balanced_answer b (bs_status status)) as Ha.
  unfold status_resolved.
  destruct (String.eqb (bs_status status) "completed"); simpl.
  - rewrite <- app_assoc. apply balanced_app; assumption.
  - apply balanced_app; assumption.
Qed.

Lemma rerender_balanced (before after : state) :
  log_balanced (log after) -> log_balanced (log (rerender before after)).
Proof.
  intros Hl. unfold rerender, run_effect.
  repeat case_match; try exact Hl. apply start_poll_balanced. exact Hl.
Qed.

Lemma step_balanced (st st' : state) (e : event) :
  step st e = Some st' -> log_balanced (log st) -> log_balanced (log st').
Proof.
  intros Hstep Hl.
  destruct e; simpl in Hstep.
  - injection Hstep as <-. exact Hl.
  - destruct (List.filter nonblank (topics st)); injection Hstep as <-; [exact Hl|].
    simpl. apply balanced_app; [exact Hl|]. intros b0. reflexivity.
  - destruct (pending_submit st !! k); [|discriminate].
    injection Hstep as <-. apply rerender_balanced. destruct r; exact Hl.
  - destruct (interval st); [|discriminate].
    destruct (batchId st); [|discriminate].
    injection Hstep as <-. apply start_poll_balanced. exact Hl.
  - destruct (pending_status st !! k) as [b|]; [|discriminate].
    destruct r as [status|x]; injection Hstep as <-; [|exact Hl].
    apply status_resolved_balanced. exact Hl.
  - destruct (pending_results st !! k); [|discriminate].
    destruct r; injection Hstep as <-; exact Hl.
  - injection Hstep as <-. apply rerender_balanced. exact Hl.
  - injection Hstep as <-. exact Hl.
Qed.

End BatchCounting.

(** In every run of the batch form, the results of a batch have been
    requested exactly as many times as a status poll for it has answered
    ["completed"]: each such answer starts one fetch, also after the first,
    and nothing else does. *)
Theorem results_fetched_once_per_completed_answer
    (evs : list BatchForm.event) (st : BatchForm.state) (b : string) :
  BatchForm.run BatchForm.init evs = Some st ->
  length (List.filter (is_results_call b) (BatchForm.log st)) =
  length (List.filter (is_completed_answer b) (BatchForm.log st)).
Proof.
  assert (Hinit : log_balanced (BatchForm.log BatchForm.init)) by (intros b0; reflexivity).
  revert Hinit. generalize BatchForm.init.
  induction evs as [|e evs IH]; intros st0 Hinv Hrun; simpl in Hrun.
  - injection Hrun as <-. apply Hinv.
  - destruct (BatchForm.step st0 e) as [st1|] eqn:Hstep; [|discriminate].
    apply (IH st1); [|exact Hrun]. exact (step_balanced _ _ _ Hstep Hinv).
Qed.

Lemma results_fetched_once_per_completed_answer_witness :
  length (List.filter (is_results_call "b1") (BatchForm.log batch_final)) = 1%nat.
Proof.
  rewrite (results_fetched_once_per_completed_answer batch_events batch_final "b1").
  - reflexivity.
  - vm_compute. reflexivity.
Defined.

(** ** The live session: the socket reference and [sendMessage] *)

Section LiveInvariant.

Import LiveSession.






Lemma step_keeps_sending (st st' : state) (e : event) :
  step st e = Some st' -> isSending st = true -> isSending st' = true.
Proof.
  intros Hstep Hs. destruct e; simpl in Hstep;
    unfold sendMessage, start_resolved, start_threw, end_resolved in Hstep;
    rewrite ?Hs, ?orb_true_r in Hstep;
    repeat case_match; simplify_eq; simpl; auto.
Qed.

Lemma run_keeps_sending (evs : list event) (st st' : state) :
  run st evs = Some st' -> isSending st = true -> isSending st' = true.
Proof.
  revert st. induction evs as [|e evs IH]; intros st Hrun Hs; simpl in Hrun.
  - injection Hrun as <-. exact Hs.
  - destruct (step st e) as [st1|] eqn:Hstep; [|discriminate].
    apply (IH st1 Hrun). exact (step_keeps_sending _ _ _ Hstep Hs).
Qed.

End LiveInvariant.



(** When [new WebSocket(wsUrl)] throws, the session is shown without a
    socket: the input is there and [sendMessage] does nothing. *)
Example session_without_socket :
  LiveSession.session live_no_socket = Some live_session /\
  LiveSession.wsRef live_no_socket = None /\
  LiveSession.isStarting live_no_socket = false /\
  LiveSession.step live_no_socket (LiveSession.SendMessage "12:00:01")
    = Some live_no_socket.
Proof. repeat split. Qed.

(** [sendMessage] changes the message list only by appending the user's
    entry for a non-blank input, and then clears the input; and it hands a
    frame to a socket only if that socket is the referenced one and open,
    the frame carries the input, and the entry is appended as well. *)
Theorem sendMessage_effect
    (st st' : LiveSession.state) (now : string) :
  LiveSession.step st (LiveSession.SendMessage now) = Some st' ->
  (LiveSession.messages st' <> LiveSession.messages st ->
   BatchForm.nonblank (LiveSession.currentMessage st) = true /\
   LiveSession.isSending st = false /\
   LiveSession.messages st' =
     (LiveSession.messages st
      ++ [LiveSession.user_entry (LiveSession.currentMessage st) now])%list /\
   LiveSession.currentMessage st' = "" /\
   LiveSession.isSending st' = false) /\
  (forall id w w',
     LiveSession.sockets st !! id = Some w ->
     LiveSession.sockets st' !! id = Some w' ->
     LiveSession.sent w' <> LiveSession.sent w ->
     LiveSession.wsRef st = Some id /\
     LiveSession.ready w = LiveSession.OPEN /\
     LiveSession.sent w' =
       (LiveSession.sent w
        ++ [LiveSession.text_frame (LiveSession.currentMessage st)])%list /\
     LiveSession.messages st' =
       (LiveSession.messages st
        ++ [LiveSession.user_entry (LiveSession.currentMessage st) now])%list).
Proof.
  simpl. unfold LiveSession.sendMessage. intros Hstep.
  destruct (LiveSession.wsRef st) as [ref|] eqn:Hr.
  2: { injection Hstep as <-. split; [congruence|]. intros; congruence. }
  destruct (BatchForm.nonblank (LiveSession.currentMessage st)) eqn:Hb; simpl in Hstep.
  2: { injection Hstep as <-. split; [congruence|]. intros; congruence. }
  destruct (LiveSession.isSending st) eqn:Hs.
  { injection Hstep as <-. split; [congruence|]. intros; congruence. }
  destruct (LiveSession.sockets st !! ref) as [w0|] eqn:Hw0; [|discriminate].
  destruct (LiveSession.ws_send _ w0) as [w0'|] eqn:Hsend; injection Hstep as <-; simpl.
  2: { split; [congruence|]. intros; congruence. }
  split; [auto|].
  intros id w w' Hw Hw' Hsent.
  destruct (decide (ref = id)) as [->|Hne].
  - rewrite lookup_insert_eq in Hw'. injection Hw' as <-.
    rewrite Hw0 in Hw. injection Hw as <-.
    unfold LiveSession.ws_send in Hsend.
    destruct (LiveSession.ready w0) eqn:Hready; try discriminate;
      injection Hsend as <-; simpl in *; try congruence.
    auto.
  - rewrite lookup_insert_ne in Hw' by exact Hne. congruence.
Qed.

Lemma sendMessage_effect_witness :
  BatchForm.nonblank (LiveSession.currentMessage live_open) = true /\
  LiveSession.currentMessage live_sent = "".
Proof.
  destruct (sendMessage_effect live_open live_sent "12:00:01") as [H _].
  - vm_compute. reflexivity.
  - destruct H as (Hb & _ & _ & Hc & _).
    + vm_compute. discriminate.
    + split; [exact Hb | exact Hc].
Defined.

(** A message sent while the socket is still connecting is lost and locks
    the input for good: [send] throws after [setIsSending(true)], so the
    message is neither sent nor listed, and from then on [isSending] stays
    set whatever happens, and every later [sendMessage] does nothing. *)
Theorem send_while_connecting_locks_input
    (st st1 st2 : LiveSession.state) (id : nat) (w : LiveSession.socket)
    (now : string) (evs : list LiveSession.event) :
  LiveSession.wsRef st = Some id ->
  LiveSession.sockets st !! id = Some w ->
  LiveSession.ready w = LiveSession.CONNECTING ->
  BatchForm.nonblank (LiveSession.currentMessage st) = true ->
  LiveSession.isSending st = false ->
  LiveSession.step st (LiveSession.SendMessage now) = Some st1 ->
  LiveSession.run st1 evs = Some st2 ->
  LiveSession.messages st1 = LiveSession.messages st /\
  LiveSession.sockets st1 = LiveSession.sockets st /\
  LiveSession.isSending st2 = true /\
  forall now', LiveSession.step st2 (LiveSession.SendMessage now') = Some st2.
Proof.
  intros Hr Hw Hc Hb Hs Hstep Hrun.
  simpl in Hstep. unfold LiveSession.sendMessage in Hstep.
  rewrite Hr, Hb, Hs, Hw in Hstep. unfold LiveSession.ws_send in Hstep.
  rewrite Hc in Hstep. simpl in Hstep. injection Hstep as <-.
  assert (H2 : LiveSession.isSending st2 = true)
    by (apply (run_keeps_sending evs _ _ Hrun); reflexivity).
  repeat split; auto.
  intros now'. simpl. unfold LiveSession.sendMessage. rewrite H2, orb_true_r.
  destruct (LiveSession.wsRef st2); reflexivity.
Qed.

Lemma send_while_connecting_locks_input_witness :
  LiveSession.messages live_stuck = LiveSession.messages live_connecting /\
  LiveSession.sockets live_stuck = LiveSession.sockets live_connecting /\
  LiveSession.isSending live_stuck_later = true /\
  forall now', LiveSession.step live_stuck_later (LiveSession.SendMessage now')
               = Some live_stuck_later.
Proof.
  apply (send_while_connecting_locks_input live_connecting live_stuck live_stuck_later 1
           {| LiveSession.ws_session := "s1"; LiveSession.ready := LiveSession.CONNECTING;
              LiveSession.sent := [] |}
           "12:00:01" [ LiveSession.WsOpen 1; LiveSession.SendMessage "12:00:09" ]);
    vm_compute; reflexivity.
Defined.

(** ** [formatDuration] *)

Section DurationFacts.

Import Duration.

Lemma string_length_app (a b : string) :
  String.length (a +:+ b) = (String.length a + String.length b)%nat.
Proof. induction a as [|c a IH]; simpl; [reflexivity|]. rewrite IH. reflexivity. Qed.

Lemma string_app_inj (a b c d : string) :
  String.length a = String.length c -> a +:+ b = c +:+ d -> a = c /\ b = d.
Proof.
  revert c. induction a as [|x a IH]; intros [|y c] Hlen H; simpl in *;
    try discriminate; [auto|].
  injection H as -> H. injection Hlen as Hlen.
  destruct (IH c Hlen H) as [-> ->]. auto.
Qed.

(** Below 60 the padded seconds read back as the number they print. *)
Lemma read_seconds_padStart (k : nat) :
  (k < 60)%nat -> read_seconds (padStart 2 zero (pretty k)) = Some k.
Proof.
  intros Hk.
  assert (Hall : forallb (fun k => match read_seconds (padStart 2 zero (pretty k)) with
                                   | Some k' => Nat.eqb k' k
                                   | None => false
                                   end) (seq 0 60) = true) by (vm_compute; reflexivity).
  rewrite forallb_forall in Hall. specialize (Hall k).
  rewrite in_seq in Hall. specialize (Hall ltac:(lia)).
  destruct (read_seconds _) as [k'|]; [|discriminate].
  apply Nat.eqb_eq in Hall. congruence.
Qed.

Lemma padStart_seconds_length (k : nat) :
  (k < 60)%nat -> String.length (padStart 2 zero (pretty k)) = 2%nat.
Proof.
  intros Hk.
  assert (Hall : forallb (fun k => Nat.eqb (String.length (padStart 2 zero (pretty k))) 2)
                         (seq 0 60) = true) by (vm_compute; reflexivity).
  rewrite forallb_forall in Hall. specialize (Hall k).
  rewrite in_seq in Hall. apply Nat.eqb_eq, Hall. lia.
Qed.

End DurationFacts.

(** [formatDuration] prints the minutes, a colon and the seconds on exactly
    two characters, and different durations are printed differently. *)
Theorem formatDuration_injective (a b : nat) :
  (exists seconds,
     Duration.formatDuration a = pretty (a / 60)%nat +:+ ":" +:+ seconds /\
     String.length seconds = 2%nat /\ read_seconds seconds = Some (a mod 60)%nat) /\
  (Duration.formatDuration a = Duration.formatDuration b -> a = b).
Proof.
  assert (Ha : (a mod 60 < 60)%nat) by (apply Nat.mod_upper_bound; lia).
  assert (Hb : (b mod 60 < 60)%nat) by (apply Nat.mod_upper_bound; lia).
  split.
  - eexists. split; [reflexivity|]. split.
    + apply padStart_seconds_length. exact Ha.
    + apply read_seconds_padStart. exact Ha.
  - unfold Duration.formatDuration. intros H.
    assert (Hlen : String.length (pretty (a / 60)%nat) = String.length (pretty (b / 60)%nat)).
    { apply (f_equal String.length) in H. rewrite !string_length_app in H.
      rewrite !padStart_seconds_length in H by assumption.
      change (String.length ":") with 1%nat in H. lia. }
    apply string_app_inj in H as [Hm H]; [|exact Hlen].
    apply (string_app_inj ":" _ ":" _ eq_refl) in H as [_ Hs].
    apply (inj pretty) in Hm.
    apply (f_equal read_seconds) in Hs.
    rewrite !read_seconds_padStart in Hs by assumption.
    assert (Hs' : (a mod 60)%nat = (b mod 60)%nat) by congruence.
    rewrite (Nat.div_mod_eq a 60), (Nat.div_mod_eq b 60), Hm, Hs'. reflexivity.
Qed.

(** ** The result display: filtering and truncating references *)

Section Filtering.

Import ResultDisplay.

Lemma filter_sublist {A} (f : A -> bool) (l : list A) : sublist (List.filter f l) l.
Proof.
  induction l as [|x l IH]; simpl; [constructor|].
  destruct (f x); [apply sublist_skip | apply sublist_cons]; exact IH.
Qed.

End Filtering.

(** [handleFilterChange] shows a sub-list of the references, in their
    order; it is the whole list for source 'all' and threshold 0, and
    otherwise holds exactly the references of the selected source whose
    confidence (0 when missing) reaches a positive threshold. *)
Theorem handleFilterChange_selects
    (references : option (list ResultDisplay.Reference)) (f : ResultDisplay.filters) :
  let all := match references with Some refs => refs | None => [] end in
  let shown := ResultDisplay.handleFilterChange references f in
  sublist shown all /\
  (ResultDisplay.sourceType f = "all" -> (ResultDisplay.minConfidence f <= 0)%Q ->
   shown = all) /\
  (forall ref, In ref shown <->
     In ref all /\
     (ResultDisplay.sourceType f = "all" \/
      ResultDisplay.source_type ref = Some (ResultDisplay.sourceType f)) /\
     ((ResultDisplay.minConfidence f <= 0)%Q \/
      (ResultDisplay.minConfidence f <= ResultDisplay.score ref)%Q)).
Proof.
  intros all shown. subst shown. unfold ResultDisplay.handleFilterChange. fold all.
  assert (Hsrc : forall ref, ResultDisplay.has_source (ResultDisplay.sourceType f) ref = true
                   <-> ResultDisplay.source_type ref = Some (ResultDisplay.sourceType f)).
  { intros ref. unfold ResultDisplay.has_source.
    destruct (ResultDisplay.source_type ref) as [s|]; [|split; discriminate].
    rewrite String.eqb_eq. split; congruence. }
  assert (Hmin : Qle_bool (ResultDisplay.minConfidence f) 0 = false ->
                 ~ (ResultDisplay.minConfidence f <= 0)%Q).
  { intros E H. apply Qle_bool_iff in H. congruence. }
  destruct (String.eqb_spec (ResultDisplay.sourceType f) "all") as [Eall|Eall];
    destruct (Qle_bool (ResultDisplay.minConfidence f) 0) eqn:Emin; simpl.
  - apply Qle_bool_iff in Emin.
    split; [reflexivity|]. split; [reflexivity|]. intros ref. tauto.
  - specialize (Hmin eq_refl).
    split; [apply filter_sublist|]. split; [tauto|].
    intros ref. rewrite List.filter_In, Qle_bool_iff. tauto.
  - apply Qle_bool_iff in Emin.
    split; [apply filter_sublist|]. split; [congruence|].
    intros ref. rewrite List.filter_In, Hsrc. tauto.
  - specialize (Hmin eq_refl).
    split; [etransitivity; apply filter_sublist|]. split; [congruence|].
    intros ref. rewrite !List.filter_In, Hsrc, Qle_bool_iff. tauto.
Qed.

(** The list shown lags one change behind the filter controls: a change
    applies the values the controls had before it, so the first change of a
    control never filters anything. *)
Theorem filter_lags_one_change
    (references : option (list ResultDisplay.Reference))
    (es : list ResultDisplay.event) (e : ResultDisplay.event) :
  ResultDisplay.filteredReferences
    (ResultDisplay.run references (ResultDisplay.init references) (es ++ [e])%list) =
  ResultDisplay.handleFilterChange references
    (ResultDisplay.controls
       (ResultDisplay.run references (ResultDisplay.init references) es)) /\
  ResultDisplay.filteredReferences
    (ResultDisplay.run references (ResultDisplay.init references) [e]) =
  match references with Some refs => refs | None => [] end.
Proof.
  unfold ResultDisplay.run. rewrite fold_left_app. simpl. split; reflexivity.
Qed.

(** The collapsed snippet is the snippet itself up to 150 UTF-16 code
    units (what [length] counts), and beyond that its first 150 code units
    and an ellipsis: never more than 153 code units. *)
Theorem collapsed_snippet_bound (snippet : string) :
  (length (ResultDisplay.collapsed snippet) <= 153)%nat /\
  ((utf16_length snippet <= 150)%nat ->
   ResultDisplay.collapsed snippet = utf16 snippet) /\
  ((150 < utf16_length snippet)%nat ->
   ResultDisplay.collapsed snippet = (take 150 (utf16 snippet) ++ utf16 "...")%list /\
   length (ResultDisplay.collapsed snippet) = 153%nat).
Proof.
  unfold ResultDisplay.collapsed, utf16_length.
  destruct (150 <? length (utf16 snippet))%nat eqn:E.
  - apply Nat.ltb_lt in E.
    assert (H : length (take 150 (utf16 snippet) ++ utf16 "...")%list = 153%nat).
    { rewrite length_app, length_take.
      change (length (utf16 "...")) with 3%nat. lia. }
    split; [lia|]. split; [lia | auto].
  - apply Nat.ltb_ge in E. rewrite app_nil_r, take_ge by exact E.
    split; [lia|]. split; [reflexivity | lia].
Qed.

(** A snippet of 149 letters and one emoji has 151 code units: collapsed, it
    ends in the first half of the emoji's surrogate pair and the dots. *)
Example collapsed_splits_surrogate_pair :
  utf16_length long_snippet = 151%nat /\
  drop 149 (ResultDisplay.collapsed long_snippet) = [55357; 46; 46; 46]%N.
Proof. split; vm_compute; reflexivity. Qed.

(** ** The job page *)

(** What the job page shows once its first load has answered, for a
    non-empty job id: the status card for a queued or running job; the
    placeholder, not the spinner, for a completed job whose result is still
    being fetched; the error view for a failed job. *)
Theorem job_page_initial_view
    (id : string) (statusRes : Types.JobStatusResponse) (details : JobPage.Details) :
  id <> "" ->
  JobPage.render
    (JobPage.fetchInitialData_settled (inl (statusRes, details)) (JobPage.mount id)) =
  match Types.jsr_status statusRes with
  | Types.queued | Types.in_progress =>
      JobPage.StatusView (Types.jsr_status statusRes) (Types.jsr_progress statusRes) details
  | Types.completed => JobPage.Preparing
  | Types.failed => JobPage.ErrorView "Job initially found in a failed state."
  end.
Proof.
  intros Hid. apply String.eqb_neq in Hid.
  unfold JobPage.render, JobPage.fetchInitialData_settled.
  destruct (Types.jsr_status statusRes) eqn:E; simpl; rewrite Hid; simpl;
    rewrite ?E; reflexivity.
Qed.

Lemma job_page_initial_view_witness :
  JobPage.render
    (JobPage.fetchInitialData_settled (inl (queued_answer, some_details))
       (JobPage.mount "job-1")) =
  JobPage.StatusView Types.queued (Some (1 # 10)) some_details.
Proof.
  apply (job_page_initial_view "job-1" queued_answer some_details). discriminate.
Defined.

(** When [StatusDisplay] reports completion the page shows the spinner
    until the result request settles; then, whatever was shown before, it
    shows the result, or, if the request failed, the error view with the
    error's message. *)
Theorem job_page_completion_view (st : JobPage.state) :
  JobPage.jobId st <> "" ->
  JobPage.render (JobPage.handleJobCompletion_begin st) = JobPage.Loading /\
  (forall result, truthy result = true ->
     JobPage.render
       (JobPage.handleJobCompletion_settled (inl result)
          (JobPage.handleJobCompletion_begin st)) = JobPage.ResultView result) /\
  (forall err, JobPage.message_of err "Failed to load results." <> "" ->
     JobPage.render
       (JobPage.handleJobCompletion_settled (inr err)
          (JobPage.handleJobCompletion_begin st)) =
     JobPage.ErrorView (JobPage.message_of err "Failed to load results.")).
Proof.
  intros Hid. apply String.eqb_neq in Hid.
  unfold JobPage.render, JobPage.handleJobCompletion_settled,
    JobPage.handleJobCompletion_begin.
  split; [simpl; rewrite Hid; reflexivity|]. split.
  - intros result Ht. simpl. rewrite Hid, Ht. simpl.
    destruct (JobPage.error_shown None); reflexivity.
  - intros err Hmsg. apply String.eqb_neq in Hmsg. simpl. rewrite Hid, Hmsg. reflexivity.
Qed.

Lemma job_page_completion_view_witness :
  JobPage.render
    (JobPage.handleJobCompletion_settled (inr None)
       (JobPage.handleJobCompletion_begin
          (JobPage.fetchInitialData_settled (inl (queued_answer, some_details))
             (JobPage.mount "job-1")))) =
  JobPage.ErrorView "Failed to load results.".
Proof.
  apply (job_page_completion_view
           (JobPage.fetchInitialData_settled (inl (queued_answer, some_details))
              (JobPage.mount "job-1"))); discriminate.
Defined.

(** When [StatusDisplay] reports a failure the page replaces the status
    card by the error view with that message, unless a result is already
    displayed; the status card is not shown again. *)
Theorem job_page_failure_view (st : JobPage.state) (errorMessage : string) :
  JobPage.jobId st <> "" -> errorMessage <> "" ->
  JobPage.render (JobPage.handleJobFailure errorMessage st) =
    (if truthy (JobPage.finalResult st) then JobPage.ResultView (JobPage.finalResult st)
     else JobPage.ErrorView errorMessage) /\
  JobPage.initialStatus (JobPage.handleJobFailure errorMessage st) = Some Types.failed.
Proof.
  intros Hid Hmsg. apply String.eqb_neq in Hid. apply String.eqb_neq in Hmsg.
  unfold JobPage.render, JobPage.handleJobFailure. simpl. rewrite Hid, Hmsg. simpl.
  destruct (truthy (JobPage.finalResult st)); auto.
Qed.

Lemma job_page_failure_view_witness :
  JobPage.render
    (JobPage.handleJobFailure "Job job-1 failed with an unknown error."
       (JobPage.fetchInitialData_settled (inl (queued_answer, some_details))
          (JobPage.mount "job-1"))) =
  JobPage.ErrorView "Job job-1 failed with an unknown error.".
Proof.
  apply (job_page_failure_view
           (JobPage.fetchInitialData_settled (inl (queued_answer, some_details))
              (JobPage.mount "job-1"))
           "Job job-1 failed with an unknown error."); discriminate.
Defined.

(** ** The job page with its status card *)

Section StatusCard.

Import Types.

















End StatusCard.


